(** * Vertical-chain cart-pole simulator and PPO agent (src/index.html)

    A shallow embedding of the [VerticalChainSimulator] and [PPOAgent]
    classes of [src/index.html], and the properties of them that the
    specification states.

    Numbers.  JavaScript numbers are modelled by the real numbers [R]:
    every arithmetic operation is the exact one, [Math.sin], [Math.cos],
    [tf.exp] and [tf.log] are [sin], [cos], [exp] and [ln], and storing
    into a [Float32Array] keeps the value.  Rounding, NaN and infinities
    are therefore outside this model; reading an array outside its bounds
    (which yields [undefined] in the source) never happens on the inputs
    the theorems quantify over, and reads as [0] here.  The one place
    where the number formats of the source are kept is the cart test of
    [isTerminal] at its boundary: there the cart position is a binary32
    value ([isBinary32], [storedAs]), the threshold is the binary64 value
    of the literal [2.4], and the module [Float32] computes the same
    constants in the primitive floats.  How closely the log-probability
    that [computeLosses] recomputes in 32-bit tensor arithmetic agrees
    with the one of [getAction] is a matter of that rounding, and is not
    stated here.

    Randomness.  [Math.random], [tf.randomNormal] and
    [tf.util.createShuffledIndices] are modelled as explicit inputs: a
    stream with a cursor, the sampled noise, and a generator state that
    is threaded through the caller.

    The networks and the optimizers belong to TensorFlow.js: the actor
    and the critic are functions from observations, and in [update] the
    calls [tf.tensor1d] and [minimize] are collaborators of which nothing
    is assumed: each returns or throws, and an optimizer step leaves the
    parameters of the agent in some state. *)

From Stdlib Require Import Reals Lra Lia List ZArith Bool.
From Stdlib Require Floats.PrimFloat Floats.SpecFloat Floats.FloatOps.
From Stdlib Require Numbers.Cyclic.Int63.Uint63.
Import ListNotations.
Open Scope R_scope.

(** ** Comparisons of numbers as booleans *)

Definition Rgtb (a b : R) : bool := if Rlt_dec b a then true else false.
Definition Rgeb (a b : R) : bool := if Rle_dec b a then true else false.

(** ** Arrays of numbers

    A [Float32Array] (and a plain array of numbers) is a [list R].  A
    typed array has a fixed length: a store at an index outside it is
    ignored, which is what [ta_set] does. *)

Definition ta_get (a : list R) (i : nat) : R := nth i a 0.

Fixpoint ta_set (a : list R) (i : nat) (v : R) : list R :=
  match a, i with
  | [], _ => []
  | _ :: t, O => v :: t
  | x :: t, S j => x :: ta_set t j v
  end.

(** [new Float32Array(n)]: [n] zeros. *)
Definition ta_new (n : nat) : list R := repeat 0 n.

(** [for (let i = 0; i < n; i++) body], as a fold over the indices. *)
Definition for_loop {A : Type} (n : nat) (body : A -> nat -> A) (init : A) : A :=
  fold_left body (seq 0 n) init.

(** ** Utility vector functions *)

(** [v1.map((val, i) => val + v2[i])] *)
Fixpoint vectorAdd (v1 v2 : list R) : list R :=
  match v1 with
  | [] => []
  | a :: t => (a + hd 0 v2) :: vectorAdd t (tl v2)
  end.

(** [v.map(val => val * scalar)] *)
Definition vectorScale (v : list R) (scalar : R) : list R :=
  map (fun val => val * scalar) v.

(** [vectorAddMultiple(...vectors)]: the first vector, then every other
    one added to it in turn. *)
Definition vectorAddMultiple (first : list R) (others : list (list R)) : list R :=
  fold_left vectorAdd others first.

(** ** The simulator *)

Record Canvas := { width : R; height : R }.

Record Tip := { tip_x : R; tip_y : R }.

(** The fields that the constructor sets to a literal and that nothing
    assigns afterwards are constants of the class. *)
Definition gravity : R := 9.8.
Definition dt : R := 0.02.
Definition massCart : R := 1.0.
Definition massPole : R := 0.1.
Definition L : R := 1.0.
Definition xThreshold : R := 2.4.
Definition scale : R := 100.
Definition cartWidth : R := 0.8 * scale.
Definition cartHeight : R := 0.4 * scale.

(** The fields that differ between instances or change over time.
    [maxTrailLength] is read by [updateTrails] and assigned nowhere: it
    is [undefined], [None] here. *)
Record VerticalChainSimulator := {
  canvas : Canvas;
  numPoles : Z;
  state : list R;
  trails : list (list Tip);
  maxTrailLength : option nat
}.

Definition groundY (sim : VerticalChainSimulator) : R :=
  height (canvas sim) - 100.

Definition set_state (sim : VerticalChainSimulator) (s : list R) :=
  {| canvas := canvas sim; numPoles := numPoles sim; state := s;
     trails := trails sim; maxTrailLength := maxTrailLength sim |}.

Definition set_trails (sim : VerticalChainSimulator) (t : list (list Tip)) :=
  {| canvas := canvas sim; numPoles := numPoles sim; state := state sim;
     trails := t; maxTrailLength := maxTrailLength sim |}.

(** The number of iterations of [for (let i = 0; i < this.numPoles; i++)]. *)
Definition poleCount (sim : VerticalChainSimulator) : nat :=
  Z.to_nat (numPoles sim).

(** [initializeTrails]: one empty trail per pole. *)
Definition initializeTrails (sim : VerticalChainSimulator) : VerticalChainSimulator :=
  set_trails sim (for_loop (poleCount sim) (fun tr _ => tr ++ [[]]) []).

(** [Math.random]: a stream of samples and the position of the next one. *)
Record Rng := { samples : nat -> R; cursor : nat }.

Definition random (g : Rng) : R * Rng :=
  (samples g (cursor g), {| samples := samples g; cursor := S (cursor g) |}).

(** [reset] *)
Definition reset (sim : VerticalChainSimulator) (g : Rng)
  : VerticalChainSimulator * Rng :=
  let s0 := ta_set (ta_set (state sim) 0 0) 1 0 in
  let '(s, g') :=
    for_loop (poleCount sim)
      (fun '(s, g) i =>
         let '(r1, g1) := random g in
         let s1 := ta_set s (2 + 2 * i) ((r1 - 0.5) * 0.05) in
         let '(r2, g2) := random g1 in
         (ta_set s1 (3 + 2 * i) ((r2 - 0.5) * 0.05), g2))
      (s0, g) in
  (initializeTrails (set_state sim s), g').

(** What the constructor can do: build an instance, or fail in
    [new Float32Array(2 + 2 * numPoles)], which throws a [RangeError] on
    a negative length.  There is no other way out of it. *)
Inductive Constructed :=
| Built (sim : VerticalChainSimulator) (g : Rng)
| RangeError.

Definition constructor (cv : Canvas) (n : Z) (g : Rng) : Constructed :=
  if (2 + 2 * n <? 0)%Z then RangeError
  else
    let sim0 := {| canvas := cv; numPoles := n;
                   state := ta_new (Z.to_nat (2 + 2 * n));
                   trails := []; maxTrailLength := None |} in
    let '(sim1, g') := reset sim0 g in
    Built (initializeTrails sim1) g'.

(** [getPoleTipCoordinates] *)
Definition getPoleTipCoordinates (sim : VerticalChainSimulator) : list Tip :=
  let cartX := width (canvas sim) / 2 + ta_get (state sim) 0 * scale in
  let cartY := groundY sim in
  let '(_, _, tips) :=
    for_loop (poleCount sim)
      (fun '(baseX, baseY, tips) i =>
         let theta := ta_get (state sim) (2 + 2 * i) in
         let linkLengthPx := L * scale in
         let endX := baseX + linkLengthPx * sin theta in
         let endY := baseY - linkLengthPx * cos theta in
         (endX, endY, tips ++ [{| tip_x := endX; tip_y := endY |}]))
      (cartX, cartY - cartHeight, []) in
  tips.

(** [computeDerivatives(state, force)] *)
Definition computeDerivatives (sim : VerticalChainSimulator)
    (st : list R) (force : R) : list R :=
  let deriv := ta_new (length st) in
  let deriv := ta_set deriv 0 (ta_get st 1) in
  let totalMass := massCart + IZR (numPoles sim) * massPole in
  let a_cart := force / totalMass in
  let deriv := ta_set deriv 1 a_cart in
  for_loop (poleCount sim)
    (fun deriv i =>
       let idx := (2 + 2 * i)%nat in
       let theta := ta_get st idx in
       let theta_dot := ta_get st (idx + 1) in
       let deriv := ta_set deriv idx theta_dot in
       ta_set deriv (idx + 1)
         (- (gravity / L) * sin theta - (a_cart / L) * cos theta))
    deriv.

(** [rk4Step(force)] *)
Definition rk4Step (sim : VerticalChainSimulator) (force : R)
  : VerticalChainSimulator :=
  let s := state sim in
  let k1 := computeDerivatives sim s force in
  let s2 := vectorAdd s (vectorScale k1 (dt / 2)) in
  let k2 := computeDerivatives sim s2 force in
  let s3 := vectorAdd s (vectorScale k2 (dt / 2)) in
  let k3 := computeDerivatives sim s3 force in
  let s4 := vectorAdd s (vectorScale k3 dt) in
  let k4 := computeDerivatives sim s4 force in
  let incr :=
    vectorScale
      (vectorAddMultiple k1 [vectorScale k2 2; vectorScale k3 2; k4])
      (dt / 6) in
  set_state sim (vectorAdd s incr).

(** [this.trails[i].length > this.maxTrailLength]: a comparison with
    [undefined] is false. *)
Definition overMaxTrailLength (sim : VerticalChainSimulator) (len : nat) : bool :=
  match maxTrailLength sim with
  | Some m => (m <? len)%nat
  | None => false
  end.

Fixpoint list_set {A : Type} (l : list A) (i : nat) (v : A) : list A :=
  match l, i with
  | [], _ => []
  | _ :: t, O => v :: t
  | x :: t, S j => x :: list_set t j v
  end.

(** [updateTrails] *)
Definition updateTrails (sim : VerticalChainSimulator) : VerticalChainSimulator :=
  let tips := getPoleTipCoordinates sim in
  set_trails sim
    (for_loop (poleCount sim)
       (fun tr i =>
          let pushed := nth i tr [] ++ [nth i tips {| tip_x := 0; tip_y := 0 |}] in
          let kept := if overMaxTrailLength sim (length pushed)
                      then tl pushed else pushed in
          list_set tr i kept)
       (trails sim)).

(** The test of one tip in [isTerminal]: [tip.y >= this.groundY - 10]. *)
Definition tipNearGround (sim : VerticalChainSimulator) (tip : Tip) : bool :=
  Rgeb (tip_y tip) (groundY sim - 10).

(** [isTerminal] *)
Definition isTerminal (sim : VerticalChainSimulator) : bool :=
  if Rgtb (Rabs (ta_get (state sim) 0)) xThreshold then true
  else existsb (tipNearGround sim) (getPoleTipCoordinates sim).

(** [Math.floor] of a number, as the count of a loop [i < steps]: a
    negative count runs the loop no time. *)
Definition floor_steps (x : R) : nat := Z.to_nat (Int_part x).

(** The loop of [update]: [budget] iterations are left and [done] steps
    were performed.  The result keeps the number of calls of [rk4Step]. *)
Fixpoint update_loop (budget : nat) (force : R)
    (sim : VerticalChainSimulator) (done : nat)
  : VerticalChainSimulator * nat :=
  match budget with
  | O => (sim, done)
  | S budget' =>
      let sim1 := updateTrails (rk4Step sim force) in
      if isTerminal sim1 then (sim1, S done)
      else update_loop budget' force sim1 (S done)
  end.

(** [update(force, elapsedTime)], with the number of RK4 steps it performed. *)
Definition update_counted (sim : VerticalChainSimulator) (force elapsedTime : R)
  : VerticalChainSimulator * nat :=
  let steps := floor_steps (elapsedTime / (dt * 1000)) in
  update_loop steps force sim 0.

Definition update (sim : VerticalChainSimulator) (force elapsedTime : R)
  : VerticalChainSimulator :=
  fst (update_counted sim force elapsedTime).

Definition stepsPerformed (sim : VerticalChainSimulator) (force elapsedTime : R)
  : nat :=
  snd (update_counted sim force elapsedTime).

(** ** The PPO agent *)

(** The hyper-parameters that the constructor sets to a literal. *)
Definition clipRatio : R := 0.2.
Definition entropyCoef : R := 0.01.
Definition gamma : R := 0.99.
Definition lam : R := 0.95.

(** The parameters of an agent: the actor network as the function from an
    observation to the mean of the action, the vector [actorLogStd], and
    the critic network as the function from an observation to a value.
    An optimizer step replaces them; between two steps they are fixed. *)
Record PPOAgent := {
  obs_dim : nat;
  action_dim : nat;
  actor : list R -> list R;
  actorLogStd : list R;
  critic : list R -> R
}.

(** Element-wise operations on rows and [tf.sum] of a row. *)
Fixpoint zipWith {A B C : Type} (f : A -> B -> C) (a : list A) (b : list B)
  : list C :=
  match a, b with
  | x :: a', y :: b' => f x y :: zipWith f a' b'
  | _, _ => []
  end.

Definition sumR (l : list R) : R := fold_right Rplus 0 l.

(** The summand of both log-densities:
    [-0.5 * (z^2 + (2 * logStd + log(2 * PI)))]. *)
Definition gaussLogDensity (z logStd : R) : R :=
  -0.5 * (z * z + (2 * logStd + ln (2 * PI))).

Record ActionResult := { action : list R; logProb : R; value : R }.

(** [getAction(state)], with the sample of [tf.randomNormal(mu.shape)] as
    the argument [noise]. *)
Definition getAction (ag : PPOAgent) (st : list R) (noise : list R)
  : ActionResult :=
  let mu := actor ag st in
  let std := map exp (actorLogStd ag) in
  let act := zipWith Rplus mu (zipWith Rmult std noise) in
  let lp := sumR (zipWith gaussLogDensity noise (actorLogStd ag)) in
  {| action := act; logProb := lp; value := critic ag st |}.

(** ** Advantage estimation *)

Record GAE := { advantages : list R; returns : list R }.

(** [dones[t] ? 0 : 1]: the flags are the numbers 0 and 1 that the tick
    pushes. *)
Definition truthy (d : Z) : bool := negb (d =? 0)%Z.

(** [a.map((x, idx) => f x idx)] *)
Fixpoint mapi_from {A B : Type} (f : A -> nat -> B) (idx : nat) (l : list A)
  : list B :=
  match l with
  | [] => []
  | x :: t => f x idx :: mapi_from f (S idx) t
  end.

Definition mapi {A B : Type} (f : A -> nat -> B) (l : list A) : list B :=
  mapi_from f 0 l.

(** The loop [for (let t = rewards.length - 1; t >= 0; t--)]: [k] is
    [t + 1], the number of indices still to fill. *)
Fixpoint gae_loop (rewards values : list R) (dones : list Z)
    (k : nat) (lastgaelam : R) (adv : list R) : list R :=
  match k with
  | O => adv
  | S t =>
      let nextValue :=
        if (t =? length rewards - 1)%nat then 0 else ta_get values (t + 1) in
      let nextNonTerminal := if truthy (nth t dones 0%Z) then 0 else 1 in
      let delta :=
        ta_get rewards t + gamma * nextValue * nextNonTerminal
        - ta_get values t in
      let lastgaelam := delta + gamma * lam * nextNonTerminal * lastgaelam in
      gae_loop rewards values dones t lastgaelam (ta_set adv t lastgaelam)
  end.

(** The statistics that [computeGAE] computes after the loop. *)
Definition advMean (adv : list R) : R :=
  fold_left Rplus adv 0 / INR (length adv).

Definition advStd (adv : list R) : R :=
  let mean := advMean adv in
  sqrt (fold_left Rplus (map (fun a => (a - mean) ^ 2) adv) 0
        / INR (length adv)).

(** [computeGAE(rewards, values, dones)] *)
Definition computeGAE (rewards values : list R) (dones : list Z) : GAE :=
  let adv := ta_new (length rewards) in
  let adv := gae_loop rewards values dones (length rewards) 0 adv in
  let rets := mapi (fun a idx => a + ta_get values idx) adv in
  let mean := advMean adv in
  let std := advStd adv in
  let advFlat := adv in
  let retFlat := rets in
  {| advantages := advFlat; returns := retFlat |}.

(** ** The update *)

(** [a.slice(i, j)] of an array, for [i <= j]. *)
Definition slice {A : Type} (a : list A) (i j : nat) : list A :=
  firstn (j - i) (skipn i a).

(** [tf.gather(x, indices)] along the first axis. *)
Definition gather {A : Type} (d : A) (x : list A) (indices : list nat) : list A :=
  map (fun i => nth i x d) indices.

(** The five tensors passed to [update], and the five of a minibatch. *)
Record Dataset := {
  d_observations : list (list R);
  d_actions : list (list R);
  d_advantages : list R;
  d_returns : list R;
  d_logpOld : list R
}.

Definition gatherBatch (data : Dataset) (batchIndices : list nat) : Dataset :=
  {| d_observations := gather [] (d_observations data) batchIndices;
     d_actions := gather [] (d_actions data) batchIndices;
     d_advantages := gather 0 (d_advantages data) batchIndices;
     d_returns := gather 0 (d_returns data) batchIndices;
     d_logpOld := gather 0 (d_logpOld data) batchIndices |}.

(** One visit of the body of the inner loop: the epoch, the offset [i] and
    the indices of the minibatch. *)
Record Visit := { v_epoch : nat; v_offset : nat; v_indices : list nat }.

(** How a call ends: it returns, or it throws.  An [async] function
    whose body throws gives a promise that is rejected. *)
Inductive Outcome := Returned | Threw.

Section Update.

(** The collaborators of [update], all of TensorFlow.js: the state of the
    generator behind [tf.util.createShuffledIndices]; the call
    [tf.tensor1d(batchIndices, 'int32')] on a slice of the array of
    indices, which returns a tensor or throws; and the two optimizer
    steps ([actorOptimizer.minimize] and [criticOptimizer.minimize] on
    the losses that [computeLosses] gives for a minibatch), each of which
    returns or throws and leaves the parameters of the agent in some
    state.  Nothing is assumed of them. *)
Variable Gen : Type.
Variable createShuffledIndices : Gen -> nat -> list nat * Gen.
Variable tensor1d : list nat -> Outcome.
Variable actorMinimize : PPOAgent -> Dataset -> Outcome * PPOAgent.
Variable criticMinimize : PPOAgent -> Dataset -> Outcome * PPOAgent.

(** The inner loop [for (let i = 0; i < datasetSize; i += batchSize)]
    of one epoch, with the minibatches drawn so far in [log].  There is
    no [try] in [update]: the first call that throws ends the loop, with
    [Threw].  With [batchSize = 0] the offset never moves, and the source
    leaves the loop by a throw only: the model then runs out of [fuel]
    and gives [None]. *)
Fixpoint batch_loop (data : Dataset) (indices : list nat)
    (datasetSize batchSize epoch : nat) (fuel i : nat)
    (ag : PPOAgent) (log : list Visit)
  : option (Outcome * PPOAgent * list Visit) :=
  if (datasetSize <=? i)%nat then Some (Returned, ag, log)
  else
    match fuel with
    | O => None
    | S fuel' =>
        let batchIndices := slice indices i (i + batchSize) in
        let log := log ++ [{| v_epoch := epoch; v_offset := i;
                              v_indices := batchIndices |}] in
        match tensor1d batchIndices with
        | Threw => Some (Threw, ag, log)
        | Returned =>
            let batch := gatherBatch data batchIndices in
            match actorMinimize ag batch with
            | (Threw, ag) => Some (Threw, ag, log)
            | (Returned, ag) =>
                match criticMinimize ag batch with
                | (Threw, ag) => Some (Threw, ag, log)
                | (Returned, ag) =>
                    batch_loop data indices datasetSize batchSize epoch fuel'
                      (i + batchSize)%nat ag log
                end
            end
        end
    end.

(** The outer loop [for (let epoch = 0; epoch < epochs; epoch++)]:
    [todo] epochs are left, starting with [epoch]. *)
Fixpoint epoch_loop (data : Dataset) (indices : list nat)
    (datasetSize batchSize : nat) (todo epoch : nat)
    (ag : PPOAgent) (log : list Visit)
  : option (Outcome * PPOAgent * list Visit) :=
  match todo with
  | O => Some (Returned, ag, log)
  | S todo' =>
      match batch_loop data indices datasetSize batchSize epoch
              datasetSize 0 ag log with
      | None => None
      | Some (Threw, ag', log') => Some (Threw, ag', log')
      | Some (Returned, ag', log') =>
          epoch_loop data indices datasetSize batchSize todo' (S epoch)
            ag' log'
      end
  end.

(** [update(observations, actions, advantages, returns, logpOld, epochs,
    batchSize)]: whether its promise is fulfilled ([Returned]) or
    rejected ([Threw]), the agent and the generator it leaves, and the
    minibatches it drew, in order. *)
Definition ppo_update (g : Gen) (ag : PPOAgent) (data : Dataset)
    (epochs batchSize : nat)
  : option (Outcome * PPOAgent * Gen * list Visit) :=
  let datasetSize := length (d_observations data) in
  let '(indices, g') := createShuffledIndices g datasetSize in
  match epoch_loop data indices datasetSize batchSize epochs 0 ag [] with
  | None => None
  | Some (c, ag', log) => Some (c, ag', g', log)
  end.

End Update.

(** ** The end of an episode in the tick *)

Record Buffers := {
  bufferObservations : list (list R);
  bufferActions : list (list R);
  bufferRewards : list R;
  bufferDones : list Z;
  bufferLogProbs : list R;
  bufferValues : list R
}.

(** The branch [if (done === 1)] of the tick, up to the call of
    [agent.update]: the arguments of that call, or [None] when the
    buffer is empty and nothing is called. *)
Definition episodeEndUpdate (b : Buffers) : option Dataset :=
  if (0 <? length (bufferObservations b))%nat then
    let gae := computeGAE (bufferRewards b) (bufferValues b) (bufferDones b) in
    Some {| d_observations := bufferObservations b;
            d_actions := bufferActions b;
            d_advantages := advantages gae;
            d_returns := returns gae;
            d_logpOld := bufferLogProbs b |}
  else None.

(** ** Configuration *)

(** The values of the options of the [numPolesSelect] element. *)
Definition numPolesSelect_options : list Z := [1; 2; 3]%Z.

(** [initSimulation], as far as the simulator goes: the selected value,
    parsed, is passed to the constructor as it is. *)
Definition initSimulation (cv : Canvas) (selected : Z) (g : Rng) : Constructed :=
  let numPoles := selected in
  constructor cv numPoles g.

(** ** The tick of the training loop *)

(** What the tick reads and writes: the simulator, the observation
    dimension that [initSimulation] computed, the buffers of the running
    episode and the source of [Math.random] that [reset] draws from. *)
Record Session := {
  s_simulator : VerticalChainSimulator;
  s_obs_dim : nat;
  s_buffers : Buffers;
  s_rng : Rng
}.

Definition emptyBuffers : Buffers :=
  {| bufferObservations := []; bufferActions := []; bufferRewards := [];
     bufferDones := []; bufferLogProbs := []; bufferValues := [] |}.

(** [initSimulation], whole: the simulator, [obs_dim = 2 + 2 * numPoles]
    and empty buffers; [None] when the constructor throws.  The new agent
    is not part of the session: its parameters are an argument of every
    tick. *)
Definition initSession (cv : Canvas) (selected : Z) (g : Rng) : option Session :=
  match initSimulation cv selected g with
  | Built sim g' =>
      Some {| s_simulator := sim;
              s_obs_dim := Z.to_nat (2 + 2 * numPoles sim);
              s_buffers := emptyBuffers;
              s_rng := g' |}
  | RangeError => None
  end.

(** The six [push]es of the tick. *)
Definition pushTransition (b : Buffers) (st : list R) (force : R) (reward : R)
    (done : Z) (lp v : R) : Buffers :=
  {| bufferObservations := bufferObservations b ++ [st];
     bufferActions := bufferActions b ++ [[force]];
     bufferRewards := bufferRewards b ++ [reward];
     bufferDones := bufferDones b ++ [done];
     bufferLogProbs := bufferLogProbs b ++ [lp];
     bufferValues := bufferValues b ++ [v] |}.

(** One run of the callback of [setInterval], for the time [elapsed]
    since the last one, with the agent as it is at that moment and the
    sample [noise] of its policy.  The result is the session after the
    tick and the arguments of the call of [agent.update], if there is one;
    the update itself runs later and is not awaited. *)
Definition tick (ag : PPOAgent) (elapsed : R) (noise : list R) (s : Session)
  : Session * option Dataset :=
  let st := state (s_simulator s) in
  let r := getAction ag st noise in
  let force := ta_get (action r) 0 in
  let sim1 := update (s_simulator s) force elapsed in
  let reward := 1 in
  let done := if isTerminal sim1 then 1%Z else 0%Z in
  let b1 := pushTransition (s_buffers s) st force reward done
              (logProb r) (value r) in
  if (done =? 1)%Z then
    let dispatched := episodeEndUpdate b1 in
    let '(sim2, g') := reset sim1 (s_rng s) in
    ({| s_simulator := sim2; s_obs_dim := s_obs_dim s;
        s_buffers := emptyBuffers; s_rng := g' |}, dispatched)
  else
    ({| s_simulator := sim1; s_obs_dim := s_obs_dim s;
        s_buffers := b1; s_rng := s_rng s |}, None).

(** The inputs of one tick, and a run of ticks with the updates it
    dispatched, in order. *)
Record TickInput := { t_agent : PPOAgent; t_elapsed : R; t_noise : list R }.

Fixpoint ticks (inputs : list TickInput) (s : Session)
  : Session * list Dataset :=
  match inputs with
  | [] => (s, [])
  | i :: rest =>
      let '(s1, d) := tick (t_agent i) (t_elapsed i) (t_noise i) s in
      let '(s2, ds) := ticks rest s1 in
      (s2, match d with Some data => data :: ds | None => ds end)
  end.

(** ** The fixed-topology demo (src/script.js)

    The second page keeps its simulation in global variables; [World]
    holds them.  The canvas enters through its width only, the actor and
    critic models and the optimizer belong to TensorFlow.js, and the
    drawing (with the [trajectory] it records) is left out.  The action
    that [chooseAction] draws is an input of [step]. *)
Module Script.

(** [simulationType]: ["1-pole"], ["2-pole"], or any other value of the
    selector, for which every branch on it is skipped. *)
Inductive SimulationType := OnePole | TwoPole | OtherType.

Definition numActions : nat := 2.
Definition massCart : R := 1.0.
Definition massPole : R := 0.1.
Definition totalMassSingle : R := massCart + massPole.
Definition totalMassDouble : R := massCart + 2 * massPole.
Definition poleLength : R := 0.5.
Definition baseTau : R := 0.02.
Definition scaleFactor : R := 100.
Definition epsilonDecay : R := 0.995.
Definition minEpsilon : R := 0.1.

Record World := {
  simulationType : SimulationType;
  gravity : R;
  forceMag : R;
  simulationSpeed : R;
  canvasWidth : R;
  x : R;
  x_dot : R;
  theta : R;
  theta_dot : R;
  theta1 : R;
  theta1_dot : R;
  theta2 : R;
  theta2_dot : R;
  states : list (list R);
  actions : list Z;
  rewards : list R;
  episodeReward : R;
  episodeCount : nat;
  epsilon : R;
  simRunning : bool
}.

(** The denominators of the two angular accelerations. *)
Definition singleDenominator (th : R) : R :=
  poleLength * (4.0 / 3.0 - (massPole * cos th * cos th) / totalMassSingle).

Definition doubleDenominator (th1 : R) : R :=
  poleLength
  * (4.0 / 3.0 - (2 * massPole * cos th1 * cos th1) / (massCart + 2 * massPole)).

(** [simulateSingleStep(action, dt)] *)
Definition simulateSingleStep (w : World) (action : Z) (dt : R) : World :=
  let force := IZR action * forceMag w in
  let costheta := cos (theta w) in
  let sintheta := sin (theta w) in
  let temp :=
    (force + massPole * poleLength * theta_dot w * theta_dot w * sintheta)
    / totalMassSingle in
  let theta_acc :=
    (gravity w * sintheta - costheta * temp) / singleDenominator (theta w) in
  let x_acc :=
    temp - (massPole * poleLength * theta_acc * costheta) / totalMassSingle in
  {| simulationType := simulationType w; gravity := gravity w;
     forceMag := forceMag w; simulationSpeed := simulationSpeed w;
     canvasWidth := canvasWidth w;
     x := x w + dt * x_dot w;
     x_dot := x_dot w + dt * x_acc;
     theta := theta w + dt * theta_dot w;
     theta_dot := theta_dot w + dt * theta_acc;
     theta1 := theta1 w; theta1_dot := theta1_dot w;
     theta2 := theta2 w; theta2_dot := theta2_dot w;
     states := states w; actions := actions w; rewards := rewards w;
     episodeReward := episodeReward w; episodeCount := episodeCount w;
     epsilon := epsilon w; simRunning := simRunning w |}.

(** [simulateDoubleStep(action, dt)] *)
Definition simulateDoubleStep (w : World) (action : Z) (dt : R) : World :=
  let force := IZR action * forceMag w in
  let m_eff := 2 * massPole in
  let costheta1 := cos (theta1 w) in
  let sintheta1 := sin (theta1 w) in
  let temp :=
    (force + m_eff * poleLength * theta1_dot w * theta1_dot w * sintheta1)
    / (massCart + m_eff) in
  let theta1_acc :=
    (gravity w * sintheta1 - costheta1 * temp) / doubleDenominator (theta1 w) in
  let x_acc :=
    temp - (m_eff * poleLength * theta1_acc * costheta1) / (massCart + m_eff) in
  let theta2_acc := gravity w * sin (theta2 w) - 0.2 * theta2_dot w in
  {| simulationType := simulationType w; gravity := gravity w;
     forceMag := forceMag w; simulationSpeed := simulationSpeed w;
     canvasWidth := canvasWidth w;
     x := x w + dt * x_dot w;
     x_dot := x_dot w + dt * x_acc;
     theta := theta w; theta_dot := theta_dot w;
     theta1 := theta1 w + dt * theta1_dot w;
     theta1_dot := theta1_dot w + dt * theta1_acc;
     theta2 := theta2 w + dt * theta2_dot w;
     theta2_dot := theta2_dot w + dt * theta2_acc;
     states := states w; actions := actions w; rewards := rewards w;
     episodeReward := episodeReward w; episodeCount := episodeCount w;
     epsilon := epsilon w; simRunning := simRunning w |}.

(** A plain array that is assigned at indices beyond its length: it grows,
    and the indices in between are holes, [None]. *)
Fixpoint js_assign (a : list (option R)) (i : nat) (v : R) : list (option R) :=
  match a, i with
  | [], O => [Some v]
  | [], S j => None :: js_assign [] j v
  | _ :: t, O => Some v :: t
  | e :: t, S j => e :: js_assign t j v
  end.

(** The loop at the head of [trainActorCriticModel], [k] indices left. *)
Fixpoint returns_loop (rw : list R) (k : nat) (sum : R)
    (discountedReturns : list (option R)) : list (option R) :=
  match k with
  | O => discountedReturns
  | S i =>
      let sum := nth i rw 0 + 0.99 * sum in
      returns_loop rw i sum (js_assign discountedReturns i sum)
  end.

(** The array [discountedReturns] that [trainActorCriticModel] builds from
    the global [rewards] and hands to the loss. *)
Definition discountedReturns (rw : list R) : list (option R) :=
  returns_loop rw (length rw) 0 [].

(** [checkFailure()]; for another simulation type it returns [undefined],
    which the caller's [if] takes as false. *)
Definition checkFailure (w : World) : bool :=
  let outOfBounds := Rgtb (Rabs (x w * scaleFactor)) (canvasWidth w / 2) in
  match simulationType w with
  | OnePole => Rgtb (Rabs (theta w)) (PI / 2) || outOfBounds
  | TwoPole =>
      Rgtb (Rabs (theta1 w)) (PI / 2)
      || Rgtb (Rabs (theta1 w + theta2 w)) (PI / 2)
      || outOfBounds
  | OtherType => false
  end.

(** [resetSimulation()] *)
Definition resetSimulation (w : World) : World :=
  let one := match simulationType w with OnePole => true | _ => false end in
  let two := match simulationType w with TwoPole => true | _ => false end in
  {| simulationType := simulationType w; gravity := gravity w;
     forceMag := forceMag w; simulationSpeed := simulationSpeed w;
     canvasWidth := canvasWidth w;
     x := 0; x_dot := 0;
     theta := if one then 0.05 else theta w;
     theta_dot := if one then 0 else theta_dot w;
     theta1 := if two then 0.05 else theta1 w;
     theta1_dot := if two then 0 else theta1_dot w;
     theta2 := if two then 0.05 else theta2 w;
     theta2_dot := if two then 0 else theta2_dot w;
     states := states w; actions := actions w; rewards := rewards w;
     episodeReward := episodeReward w; episodeCount := episodeCount w;
     epsilon := epsilon w; simRunning := simRunning w |}.

(** [Math.abs(a) < b ? 1 : 0] *)
Definition rewardIf (c : bool) : R := if c then 1 else 0.

(** The pushes of [step] after the simulation step: the state before it,
    the index of the action and the reward of the state after it; then
    the addition of the last reward to [episodeReward]. *)
Definition record (w : World) (currentState : list R) (action : Z) (reward : R)
  : World :=
  {| simulationType := simulationType w; gravity := gravity w;
     forceMag := forceMag w; simulationSpeed := simulationSpeed w;
     canvasWidth := canvasWidth w;
     x := x w; x_dot := x_dot w; theta := theta w; theta_dot := theta_dot w;
     theta1 := theta1 w; theta1_dot := theta1_dot w;
     theta2 := theta2 w; theta2_dot := theta2_dot w;
     states := states w ++ [currentState];
     actions := actions w ++ [if (action =? -1)%Z then 0%Z else 1%Z];
     rewards := rewards w ++ [reward];
     episodeReward := episodeReward w + reward;
     episodeCount := episodeCount w; epsilon := epsilon w;
     simRunning := simRunning w |}.

(** The end of an episode in [step]: the count, the training (which
    changes the models only), the decay of [epsilon], the reset and the
    clearing of the episode's arrays. *)
Definition endEpisode (w : World) : World :=
  let w1 := resetSimulation w in
  {| simulationType := simulationType w1; gravity := gravity w1;
     forceMag := forceMag w1; simulationSpeed := simulationSpeed w1;
     canvasWidth := canvasWidth w1;
     x := x w1; x_dot := x_dot w1; theta := theta w1;
     theta_dot := theta_dot w1;
     theta1 := theta1 w1; theta1_dot := theta1_dot w1;
     theta2 := theta2 w1; theta2_dot := theta2_dot w1;
     states := []; actions := []; rewards := [];
     episodeReward := 0;
     episodeCount := S (episodeCount w);
     epsilon := Rmax minEpsilon (epsilon w * epsilonDecay);
     simRunning := simRunning w |}.

(** [step()], without the drawing, for the simulation types ["1-pole"]
    and ["2-pole"]; [action] is what [chooseAction] returned, -1 or 1.
    The second component is the array of discounted returns that the
    training of a finished episode was given. *)
Definition step (w : World) (action : Z) : World * option (list (option R)) :=
  if simRunning w then
    let dt := baseTau * simulationSpeed w in
    let w1 :=
      match simulationType w with
      | OnePole =>
          let currentState := [x w; x_dot w; theta w; theta_dot w] in
          let w' := simulateSingleStep w action dt in
          record w' currentState action
            (rewardIf (Rgtb (PI / 6) (Rabs (theta w'))))
      | TwoPole =>
          let currentState :=
            [x w; x_dot w; theta1 w; theta1_dot w; theta2 w; theta2_dot w] in
          let w' := simulateDoubleStep w action dt in
          record w' currentState action
            (rewardIf (Rgtb (PI / 6) (Rabs (theta1 w'))
                       && Rgtb (PI / 6) (Rabs (theta1 w' + theta2 w'))))
      | OtherType => w
      end in
    if checkFailure w1 then (endEpisode w1, Some (discountedReturns (rewards w1)))
    else (w1, None)
  else (w, None).

(** The world when the page has loaded: the initial values of the
    globals, after the first [resetSimulation()]. *)
Definition initialWorld (width : R) : World :=
  resetSimulation
    {| simulationType := OnePole; gravity := 9.8; forceMag := 10.0;
       simulationSpeed := 1.0; canvasWidth := width;
       x := 0; x_dot := 0; theta := 0.05; theta_dot := 0;
       theta1 := 0.05; theta1_dot := 0; theta2 := 0.05; theta2_dot := 0;
       states := []; actions := []; rewards := [];
       episodeReward := 0; episodeCount := 0; epsilon := 1.0;
       simRunning := true |}.

(** The world mirrored left to right. *)
Definition mirrorWorld (w : World) : World :=
  {| simulationType := simulationType w; gravity := gravity w;
     forceMag := forceMag w; simulationSpeed := simulationSpeed w;
     canvasWidth := canvasWidth w;
     x := - x w; x_dot := - x_dot w;
     theta := - theta w; theta_dot := - theta_dot w;
     theta1 := - theta1 w; theta1_dot := - theta1_dot w;
     theta2 := - theta2 w; theta2_dot := - theta2_dot w;
     states := states w; actions := actions w; rewards := rewards w;
     episodeReward := episodeReward w; episodeCount := episodeCount w;
     epsilon := epsilon w; simRunning := simRunning w |}.

(** The discounted sum of the rewards from index [i] on:
    [sum over j < m of 0.99^j * rewards[i + j]]. *)
Definition discountedSum (rw : list R) (i m : nat) : R :=
  sumR (map (fun j => 0.99 ^ j * nth (i + j) rw 0) (seq 0 m)).

(** What [step] keeps of the arrays of the running episode. *)
Definition episodeInvariant (w : World) : Prop :=
  length (actions w) = length (states w) /\
  length (rewards w) = length (states w) /\
  Forall (fun a => a = 0%Z \/ a = 1%Z) (actions w) /\
  Forall (fun r => r = 0 \/ r = 1) (rewards w) /\
  episodeReward w = sumR (rewards w) /\
  minEpsilon <= epsilon w <= 1.

(** What happens on the page: an animation frame with the action that
    [chooseAction] drew, or one of the controls. *)
Inductive Event :=
| Frame (action : Z)
| ToggleSim
| ResetSim
| SetForce (v : R)
| SetGravity (v : R)
| SetSpeed (v : R)
| SetPoleConfig (t : SimulationType).

Definition withSettings (w : World) (t : SimulationType) (g f sp : R)
    (run : bool) : World :=
  {| simulationType := t; gravity := g; forceMag := f; simulationSpeed := sp;
     canvasWidth := canvasWidth w;
     x := x w; x_dot := x_dot w; theta := theta w; theta_dot := theta_dot w;
     theta1 := theta1 w; theta1_dot := theta1_dot w;
     theta2 := theta2 w; theta2_dot := theta2_dot w;
     states := states w; actions := actions w; rewards := rewards w;
     episodeReward := episodeReward w; episodeCount := episodeCount w;
     epsilon := epsilon w; simRunning := run |}.

(** The handler of the selector of the pole configuration. *)
Definition changePoleConfig (w : World) (t : SimulationType) : World :=
  let w1 :=
    resetSimulation
      (withSettings w t (gravity w) (forceMag w) (simulationSpeed w)
         (simRunning w)) in
  {| simulationType := simulationType w1; gravity := gravity w1;
     forceMag := forceMag w1; simulationSpeed := simulationSpeed w1;
     canvasWidth := canvasWidth w1;
     x := x w1; x_dot := x_dot w1; theta := theta w1;
     theta_dot := theta_dot w1;
     theta1 := theta1 w1; theta1_dot := theta1_dot w1;
     theta2 := theta2 w1; theta2_dot := theta2_dot w1;
     states := []; actions := []; rewards := [];
     episodeReward := 0;
     episodeCount := episodeCount w1; epsilon := epsilon w1;
     simRunning := simRunning w1 |}.

Definition handle (w : World) (e : Event) : World :=
  match e with
  | Frame action => fst (step w action)
  | ToggleSim =>
      withSettings w (simulationType w) (gravity w) (forceMag w)
        (simulationSpeed w) (negb (simRunning w))
  | ResetSim => resetSimulation w
  | SetForce v =>
      withSettings w (simulationType w) (gravity w) v (simulationSpeed w)
        (simRunning w)
  | SetGravity v =>
      withSettings w (simulationType w) v (forceMag w) (simulationSpeed w)
        (simRunning w)
  | SetSpeed v =>
      withSettings w (simulationType w) (gravity w) (forceMag w) v
        (simRunning w)
  | SetPoleConfig t => changePoleConfig w t
  end.

Definition handleAll (events : list Event) (w : World) : World :=
  fold_left handle events w.

(** What holds of the page between two events. *)
Definition pageInvariant (w : World) : Prop :=
  episodeInvariant w /\
  simulationType w <> OtherType /\
  0 <= canvasWidth w /\
  epsilon w = Rmax minEpsilon (epsilonDecay ^ episodeCount w) /\
  checkFailure w = false.

End Script.

(** ** Notions that the specification uses to describe the code *)

(** [update] seen from outside: [k] times an RK4 step followed by the
    recording of the tips. *)
Definition run (force : R) (k : nat) (sim : VerticalChainSimulator)
  : VerticalChainSimulator :=
  Nat.iter k (fun s => updateTrails (rk4Step s force)) sim.

(** [cos theta_1 + ... + cos theta_i] over the poles of a state vector. *)
Fixpoint partialCosSum (st : list R) (i : nat) : R :=
  match i with
  | O => 0
  | S j => partialCosSum st j + cos (ta_get st (2 + 2 * j))
  end.

(** The recursion of the specification for the advantages of an episode
    of length [T], by the number [m = T - t] of steps that are left:
    [advantage[T] = 0] and
    [advantage[t] = delta + gamma * lambda * nextNonTerm * advantage[t+1]]. *)
Fixpoint specAdvantageLeft (rewards values : list R) (dones : list Z)
    (T m : nat) : R :=
  match m with
  | O => 0
  | S m' =>
      let t := (T - S m')%nat in
      let nextValue := if (t =? T - 1)%nat then 0 else nth (t + 1) values 0 in
      let nextNonTerm := if truthy (nth t dones 0%Z) then 0 else 1 in
      let delta := nth t rewards 0 + gamma * nextValue * nextNonTerm
                   - nth t values 0 in
      delta + gamma * lam * nextNonTerm
              * specAdvantageLeft rewards values dones T m'
  end.

Definition specAdvantage (rewards values : list R) (dones : list Z) (t : nat) : R :=
  specAdvantageLeft rewards values dones (length rewards) (length rewards - t).

(** The state vector of a single pole at rest upright on a cart at rest
    at [x]. *)
Definition atRest (x : R) (st : list R) : Prop :=
  length st = 4%nat /\ ta_get st 0 = x /\ ta_get st 1 = 0 /\
  ta_get st 2 = 0 /\ ta_get st 3 = 0.

(** Advantages normalized by their batch mean and standard deviation, which
    is what the statistics of [computeGAE] would serve for. *)
Definition normalized (adv : list R) : list R :=
  map (fun a => (a - advMean adv) / advStd adv) adv.



(** ** The cart position as the state vector stores it

    The state vector is a [Float32Array]: what it holds is a binary32
    value, and a store rounds to a nearest one.  For the cart test of
    [isTerminal] at its boundary this is kept, in two ways: as a
    predicate on the real numbers, and, for the constants, in the
    primitive floats. *)

(** The finite binary32 values: [m * 2^(e - 149)] with a mantissa [m]
    below [2^24] in absolute value and [0 <= e <= 253]. *)
Definition isBinary32 (x : R) : Prop :=
  exists m e : Z,
    (Z.abs m < 2 ^ 24)%Z /\ (0 <= e <= 253)%Z /\
    x * IZR (2 ^ 149) = IZR (m * 2 ^ e).

(** A store of the number [v] into a [Float32Array] leaves [x]: a
    binary32 value nearest to [v]. *)
Definition storedAs (v x : R) : Prop :=
  isBinary32 x /\ forall y, isBinary32 y -> Rabs (x - v) <= Rabs (y - v).

(** The two binary32 values next to 2.4, 2.3999998569488525 and
    2.4000000953674316, and the middle of them, 2.3999999761581421. *)
Definition f32_below_2_4 : R := 10066329 / 4194304.
Definition f32_above_2_4 : R := 10066330 / 4194304.
Definition f32_middle_2_4 : R := 20132659 / 8388608.

(** The number that the literal [2.4] of the source denotes: the binary64
    value nearest to 2.4, which is a little below it. *)
Definition lit64_2_4 : R := 5404319552844595 / 2251799813685248.

(** [Math.abs(this.state[0]) > this.xThreshold] on a stored position,
    with the threshold as the source has it.  Neither [Math.abs] nor the
    comparison rounds. *)
Definition cartTest (stored : R) : bool := Rgtb (Rabs stored) lit64_2_4.

Module Float32.
Import PrimFloat SpecFloat FloatOps Uint63.

(** The value that reading back gives after storing [x] into a
    [Float32Array]: [x] rounded to 24 bits of precision, ties to even. *)
Definition fround (x : float) : float :=
  match Prim2SF x with
  | S754_finite s m e =>
      SF2Prim (binary_normalize 24 128 (cond_Zopp s (Zpos m)) e s)
  | _ => x
  end.

(** The number that the literal [2.4] denotes. *)
Definition lit_2_4 : float := 0x1.3333333333333p+1%float.

(** The quotient of 24 and 10, correctly rounded. *)
Definition quotient_24_10 : float :=
  PrimFloat.div (of_uint63 24%uint63) (of_uint63 10%uint63).

(** [this.xThreshold = 2.4] *)
Definition xThreshold : float := lit_2_4.

(** The two binary32 values next to 2.4. *)
Definition below_2_4 : float := 0x1.333332p+1%float.
Definition above_2_4 : float := 0x1.333334p+1%float.

(** [Math.abs(this.state[0]) > this.xThreshold], on the stored position. *)
Definition cartOutOfBounds (stored : float) : bool :=
  PrimFloat.ltb xThreshold (PrimFloat.abs stored).

(** The number that a finite float denotes: [m * 2^e], with its sign. *)
Definition toR (x : float) : R :=
  match Prim2SF x with
  | S754_finite s m e =>
      (IZR (cond_Zopp s (Zpos m)) * IZR (2 ^ Z.max 0 e)
       / IZR (2 ^ Z.max 0 (- e)))%R
  | _ => 0%R
  end.

End Float32.

(** What holds of the session between two ticks: the state vector has
    the observation dimension, the six buffers have one length, every
    stored observation has the observation dimension, every stored action
    has one entry, every stored reward is 1 and no stored done flag is
    set. *)
Definition sessionInvariant (s : Session) : Prop :=
  let b := s_buffers s in
  length (state (s_simulator s)) = s_obs_dim s /\
  length (bufferActions b) = length (bufferObservations b) /\
  length (bufferRewards b) = length (bufferObservations b) /\
  length (bufferDones b) = length (bufferObservations b) /\
  length (bufferLogProbs b) = length (bufferObservations b) /\
  length (bufferValues b) = length (bufferObservations b) /\
  Forall (fun o => length o = s_obs_dim s) (bufferObservations b) /\
  Forall (fun a => length a = 1%nat) (bufferActions b) /\
  Forall (fun r => r = 1) (bufferRewards b) /\
  Forall (fun d => d = 0%Z) (bufferDones b).

(** The temporal-difference residual of step [t] in an episode of length
    [T] without a done flag before its last step. *)
Definition tdResidual (rewards values : list R) (T t : nat) : R :=
  nth t rewards 0
  + gamma * (if (t =? T - 1)%nat then 0 else nth (t + 1) values 0)
  - nth t values 0.

(** [sum over j < m of (gamma * lam)^j * delta(t + j)] *)
Definition discountedResiduals (rewards values : list R) (T t m : nat) : R :=
  sumR (map (fun j => (gamma * lam) ^ j * tdResidual rewards values T (t + j))
            (seq 0 m)).

(** The density of the normal distribution with mean [mu] and standard
    deviation [sigma] at [a], and the logarithm of the density of a vector
    of independent ones at the vector [act]. *)
Definition gaussDensity (mu sigma a : R) : R :=
  / (sigma * sqrt (2 * PI))
  * exp (- (((a - mu) / sigma) * ((a - mu) / sigma)) / 2).

Definition logDensityOfAction (mu logStd act : list R) : R :=
  sumR (zipWith (fun f a => f a)
          (zipWith (fun m ls a => ln (gaussDensity m (exp ls) a)) mu logStd)
          act).

(** The simulator mirrored left to right: every entry of the state vector
    negated. *)
Definition mirror (sim : VerticalChainSimulator) : VerticalChainSimulator :=
  set_state sim (map Ropp (state sim)).

(** ** Concrete instances for the examples *)

Definition noTip : Tip := {| tip_x := 0; tip_y := 0 |}.

Definition canvas800x600 : Canvas := {| width := 800; height := 600 |}.

(** A simulator on the canvas of the page, with [n] poles and the state
    vector [st], as [reset] leaves the other fields. *)
Definition simWith (n : Z) (st : list R) : VerticalChainSimulator :=
  {| canvas := canvas800x600; numPoles := n; state := st;
     trails := repeat [] (Z.to_nat n); maxTrailLength := None |}.

(** An agent with one action dimension, the mean [mu] for every
    observation and the log-standard-deviation [ls]. *)
Definition agentWith (mu ls : R) : PPOAgent :=
  {| obs_dim := 4; action_dim := 1; actor := fun _ => [mu];
     actorLogStd := [ls]; critic := fun _ => 0 |}.

(** A source of randomness whose every sample is 0.5. *)
Definition rngHalf : Rng := {| samples := fun _ => 0.5; cursor := 0 |}.

(** A dataset of three transitions with one observation and one action
    dimension, and collaborators for [ppo_update] over it: a shuffle that
    reverses the order, and optimizer steps that leave the agent alone. *)
Definition dataset3 : Dataset :=
  {| d_observations := [[0]; [1]; [2]];
     d_actions := [[0]; [0]; [0]];
     d_advantages := [1; 1; 1];
     d_returns := [1; 1; 1];
     d_logpOld := [0; 0; 0] |}.

Definition reverseShuffle (g : unit) (n : nat) : list nat * unit :=
  (rev (seq 0 n), g).

Definition noStep (ag : PPOAgent) (batch : Dataset) : Outcome * PPOAgent :=
  (Returned, ag).

(** A [tf.tensor1d] that takes every array of indices, and one that
    takes none. *)
Definition acceptIndices (values : list nat) : Outcome := Returned.
Definition rejectIndices (values : list nat) : Outcome := Threw.

(** * Properties *)

(** ** Booleans, arrays and loops *)

Lemma Rgtb_true (a b : R) : Rgtb a b = true <-> b < a.
Proof. unfold Rgtb. destruct (Rlt_dec b a); split; intros; try easy. Qed.

Lemma Rgtb_false (a b : R) : Rgtb a b = false <-> a <= b.
Proof.
  unfold Rgtb. destruct (Rlt_dec b a); split; intros; try easy; lra.
Qed.

Lemma Rgeb_true (a b : R) : Rgeb a b = true <-> b <= a.
Proof. unfold Rgeb. destruct (Rle_dec b a); split; intros; try easy. Qed.

Lemma Rgeb_false (a b : R) : Rgeb a b = false <-> a < b.
Proof.
  unfold Rgeb. destruct (Rle_dec b a); split; intros; try easy; lra.
Qed.

Lemma ta_set_length (a : list R) (i : nat) (v : R) :
  length (ta_set a i v) = length a.
Proof.
  revert i; induction a as [|x a IH]; intros [|i]; simpl; auto.
Qed.

Lemma ta_get_set_eq (a : list R) (i : nat) (v : R) :
  (i < length a)%nat -> ta_get (ta_set a i v) i = v.
Proof.
  unfold ta_get. revert i; induction a as [|x a IH]; intros [|i] H;
    simpl in *; try lia; auto.
  apply IH; lia.
Qed.

Lemma ta_get_set_neq (a : list R) (i j : nat) (v : R) :
  i <> j -> ta_get (ta_set a i v) j = ta_get a j.
Proof.
  unfold ta_get. revert i j; induction a as [|x a IH]; intros [|i] [|j] H;
    simpl; try reflexivity; try lia.
  apply IH; lia.
Qed.

Lemma ta_new_length (n : nat) : length (ta_new n) = n.
Proof. apply repeat_length. Qed.

Lemma for_loop_S {A : Type} (n : nat) (body : A -> nat -> A) (init : A) :
  for_loop (S n) body init = body (for_loop n body init) n.
Proof.
  unfold for_loop. rewrite seq_S, fold_left_app. reflexivity.
Qed.

Lemma for_loop_0 {A : Type} (body : A -> nat -> A) (init : A) :
  for_loop 0 body init = init.
Proof. reflexivity. Qed.

Lemma vectorAdd_length (v1 v2 : list R) :
  length (vectorAdd v1 v2) = length v1.
Proof. revert v2; induction v1; intros; simpl; auto. Qed.

Lemma ta_get_vectorAdd (v1 v2 : list R) (i : nat) :
  (i < length v1)%nat ->
  ta_get (vectorAdd v1 v2) i = ta_get v1 i + ta_get v2 i.
Proof.
  unfold ta_get. revert v2 i; induction v1 as [|a v1 IH]; intros v2 i H;
    simpl in *; [lia|].
  destruct i as [|i].
  - destruct v2; reflexivity.
  - rewrite IH by lia. destruct v2; simpl; [destruct i|]; reflexivity.
Qed.

Lemma ta_get_vectorScale (v : list R) (c : R) (i : nat) :
  ta_get (vectorScale v c) i = ta_get v i * c.
Proof.
  unfold ta_get, vectorScale. revert i; induction v as [|a v IH]; intros [|i];
    simpl; try lra. apply IH.
Qed.

Lemma vectorScale_length (v : list R) (c : R) :
  length (vectorScale v c) = length v.
Proof. apply length_map. Qed.

(** ** The derivative function *)

(** The loop over the poles of [computeDerivatives], after [n] turns. *)
Lemma deriv_loop_inv (st d0 : list R) (a : R) (n : nat) :
  length d0 = length st -> (2 + 2 * n <= length st)%nat ->
  let d :=
    for_loop n
      (fun deriv i =>
         let idx := (2 + 2 * i)%nat in
         let theta := ta_get st idx in
         let theta_dot := ta_get st (idx + 1) in
         let deriv := ta_set deriv idx theta_dot in
         ta_set deriv (idx + 1)
           (- (gravity / L) * sin theta - (a / L) * cos theta))
      d0 in
  length d = length st /\
  (forall i, (i < n)%nat ->
     ta_get d (2 + 2 * i) = ta_get st (3 + 2 * i) /\
     ta_get d (3 + 2 * i) =
       - (gravity / L) * sin (ta_get st (2 + 2 * i))
       - (a / L) * cos (ta_get st (2 + 2 * i))) /\
  (forall j, (j < 2 \/ 2 + 2 * n <= j)%nat -> ta_get d j = ta_get d0 j).
Proof.
  intros Hlen. induction n as [|n IH]; intros Hn.
  - cbn zeta. rewrite for_loop_0. repeat split; auto; intros; lia.
  - cbn zeta in *. rewrite for_loop_S.
    destruct IH as (Hl & Hpoles & Hrest); [lia|].
    set (d := for_loop n _ d0) in *.
    repeat split.
    + now rewrite !ta_set_length.
    + destruct (Nat.eq_dec i n) as [->|Hne].
      * rewrite ta_get_set_neq by lia.
        rewrite ta_get_set_eq by lia.
        f_equal; lia.
      * rewrite !ta_get_set_neq by lia. apply Hpoles; lia.
    + destruct (Nat.eq_dec i n) as [->|Hne].
      * replace (3 + 2 * n)%nat with (2 + 2 * n + 1)%nat by lia.
        rewrite ta_get_set_eq; [reflexivity|].
        rewrite ta_set_length; lia.
      * rewrite !ta_get_set_neq by lia. apply Hpoles; lia.
    + intros j Hj. rewrite !ta_get_set_neq by lia. apply Hrest; lia.
Qed.

(** What [computeDerivatives] stores, entry by entry. *)
Lemma computeDerivatives_entries (sim : VerticalChainSimulator)
    (st : list R) (force : R) :
  (2 + 2 * poleCount sim <= length st)%nat ->
  let d := computeDerivatives sim st force in
  let a := force / (massCart + IZR (numPoles sim) * massPole) in
  length d = length st /\
  ta_get d 0 = ta_get st 1 /\
  ta_get d 1 = a /\
  (forall i, (i < poleCount sim)%nat ->
     ta_get d (2 + 2 * i) = ta_get st (3 + 2 * i) /\
     ta_get d (3 + 2 * i) =
       - (gravity / L) * sin (ta_get st (2 + 2 * i))
       - (a / L) * cos (ta_get st (2 + 2 * i))) /\
  (forall j, (2 + 2 * poleCount sim <= j)%nat -> ta_get d j = 0).
Proof.
  intros Hlen d a. subst d a. unfold computeDerivatives.
  set (a := force / _).
  set (d0 := ta_set (ta_set (ta_new (length st)) 0 (ta_get st 1)) 1 a).
  assert (Hd0 : length d0 = length st).
  { unfold d0. now rewrite !ta_set_length, ta_new_length. }
  destruct (deriv_loop_inv st d0 a (poleCount sim) Hd0 Hlen)
    as (Hl & Hpoles & Hrest).
  repeat split; auto.
  - rewrite Hrest by lia. unfold d0.
    rewrite ta_get_set_neq by lia. apply ta_get_set_eq.
    rewrite ta_new_length; lia.
  - rewrite Hrest by lia. unfold d0. apply ta_get_set_eq.
    rewrite ta_set_length, ta_new_length; lia.
  - apply Hpoles; assumption.
  - apply Hpoles; assumption.
  - intros j Hj. rewrite Hrest by lia. unfold d0.
    rewrite !ta_get_set_neq by lia.
    unfold ta_get, ta_new. clear. generalize (length st) as m.
    revert j. induction j; destruct m; simpl; auto.
Qed.

(** C4.  For a state vector of length [2 + 2N] and any force,
    [computeDerivatives] returns the cart acceleration
    [a = force / (massCart + N * massPole)] and, for every pole [i],
    the derivative of its angle is its angular velocity and the derivative
    of its angular velocity is [-(g/L) sin theta_i - (a/L) cos theta_i];
    the two entries of a pole are the same in any two states that agree
    on that pole, whatever the other poles are. *)
Theorem computeDerivatives_poles (sim : VerticalChainSimulator) (N : nat)
    (st : list R) (force : R) :
  numPoles sim = Z.of_nat N ->
  length st = (2 + 2 * N)%nat ->
  let d := computeDerivatives sim st force in
  let a := force / (massCart + INR N * massPole) in
  length d = length st /\
  ta_get d 1 = a /\
  (forall i, (i < N)%nat ->
     ta_get d (2 + 2 * i) = ta_get st (3 + 2 * i) /\
     ta_get d (3 + 2 * i) =
       - (gravity / L) * sin (ta_get st (2 + 2 * i))
       - (a / L) * cos (ta_get st (2 + 2 * i))) /\
  (forall st' i, length st' = (2 + 2 * N)%nat -> (i < N)%nat ->
     ta_get st' (2 + 2 * i) = ta_get st (2 + 2 * i) ->
     ta_get st' (3 + 2 * i) = ta_get st (3 + 2 * i) ->
     ta_get (computeDerivatives sim st' force) (2 + 2 * i) = ta_get d (2 + 2 * i) /\
     ta_get (computeDerivatives sim st' force) (3 + 2 * i) = ta_get d (3 + 2 * i)).
Proof.
  intros HN Hlen d a.
  assert (HP : poleCount sim = N) by (unfold poleCount; rewrite HN; lia).
  assert (Ha : force / (massCart + IZR (numPoles sim) * massPole) = a).
  { unfold a. now rewrite HN, <- INR_IZR_INZ. }
  destruct (computeDerivatives_entries sim st force) as (Hl & _ & H1 & Hp & _);
    [rewrite HP; lia|].
  rewrite Ha, HP in *. fold d in Hl, H1, Hp.
  split; [exact Hl|]. split; [exact H1|].
  split; [intros i Hi; apply Hp; exact Hi|].
  intros st' i Hlen' Hi Etheta Etheta_dot.
  destruct (computeDerivatives_entries sim st' force) as (_ & _ & _ & Hp' & _);
    [rewrite HP; lia|].
  rewrite HP, Ha in Hp'.
  destruct (Hp' i Hi) as [E2 E3]. destruct (Hp i Hi) as [F2 F3].
  rewrite E2, E3, F2, F3, Etheta, Etheta_dot. split; reflexivity.
Qed.

Lemma computeDerivatives_poles_witness :
  ta_get (computeDerivatives (simWith 1 [0; 0; 0; 0]) [0; 0; 0; 0] 1) 1
  = 1 / (massCart + INR 1 * massPole).
Proof.
  exact (proj1 (proj2
    (computeDerivatives_poles (simWith 1 [0; 0; 0; 0]) 1 [0; 0; 0; 0] 1
       eq_refl eq_refl))).
Defined.

(** ** The tips of the poles *)

(** The loop of [getPoleTipCoordinates] after [n] turns: the heights of
    the base and of the tips found so far. *)
Lemma tips_loop_inv (sim : VerticalChainSimulator) (cartX : R) (n : nat) :
  let r :=
    for_loop n
      (fun '(baseX, baseY, tips) i =>
         let theta := ta_get (state sim) (2 + 2 * i) in
         let linkLengthPx := L * scale in
         let endX := baseX + linkLengthPx * sin theta in
         let endY := baseY - linkLengthPx * cos theta in
         (endX, endY, tips ++ [{| tip_x := endX; tip_y := endY |}]))
      (cartX, groundY sim - cartHeight, []) in
  length (snd r) = n /\
  snd (fst r) = groundY sim - cartHeight
                - L * scale * partialCosSum (state sim) n /\
  (forall i, (i < n)%nat ->
     tip_y (nth i (snd r) noTip)
     = groundY sim - cartHeight - L * scale * partialCosSum (state sim) (S i)).
Proof.
  induction n as [|n IH]; cbn zeta in *.
  - rewrite for_loop_0. simpl. repeat split; [lra | intros; lia].
  - rewrite for_loop_S.
    destruct (for_loop n _ _) as [[bX bY] tips]. simpl in IH |- *.
    destruct IH as (Hl & Hb & Ht).
    repeat split.
    + rewrite length_app. simpl. lia.
    + rewrite Hb. lra.
    + intros i Hi. destruct (Nat.eq_dec i n) as [->|Hne].
      * rewrite app_nth2 by lia. rewrite Hl, Nat.sub_diag. simpl.
        rewrite Hb. lra.
      * rewrite app_nth1 by lia. apply Ht; lia.
Qed.

Lemma getPoleTipCoordinates_heights (sim : VerticalChainSimulator) :
  length (getPoleTipCoordinates sim) = poleCount sim /\
  (forall i, (i < poleCount sim)%nat ->
     tip_y (nth i (getPoleTipCoordinates sim) noTip)
     = groundY sim - cartHeight
       - L * scale * partialCosSum (state sim) (S i)).
Proof.
  unfold getPoleTipCoordinates.
  pose proof (tips_loop_inv sim
    (width (canvas sim) / 2 + ta_get (state sim) 0 * scale) (poleCount sim))
    as H.
  cbn zeta in H.
  destruct (for_loop (poleCount sim) _ _) as [[bX bY] tips].
  simpl in H. destruct H as (Hl & _ & Ht). split; assumption.
Qed.

Lemma tipNearGround_height (sim : VerticalChainSimulator) (tip : Tip) (c : R) :
  tip_y tip = groundY sim - cartHeight - L * scale * c ->
  (tipNearGround sim tip = true <-> c <= -0.3).
Proof.
  intros E. unfold tipNearGround. rewrite Rgeb_true, E.
  unfold cartHeight, L, scale. split; intros; lra.
Qed.

(** The tip branch of [isTerminal], in terms of the angles alone. *)
Lemma tip_check_cosines (sim : VerticalChainSimulator) :
  existsb (tipNearGround sim) (getPoleTipCoordinates sim) = true <->
  exists i, (1 <= i <= poleCount sim)%nat /\
            partialCosSum (state sim) i <= -0.3.
Proof.
  destruct (getPoleTipCoordinates_heights sim) as [Hl Ht].
  rewrite existsb_exists. split.
  - intros (tip & Hin & Hnear).
    destruct (In_nth _ _ noTip Hin) as (i & Hi & <-).
    rewrite Hl in Hi. exists (S i). split; [lia|].
    apply (tipNearGround_height sim _ _ (Ht i Hi)). assumption.
  - intros (i & Hi & Hc). destruct i as [|i]; [lia|].
    exists (nth i (getPoleTipCoordinates sim) noTip). split.
    + apply nth_In. lia.
    + apply (tipNearGround_height sim _ _ (Ht i ltac:(lia))). assumption.
Qed.

Lemma partialCosSum_ext (st st' : list R) (n : nat) :
  (forall j, (j < n)%nat -> ta_get st' (2 + 2 * j) = ta_get st (2 + 2 * j)) ->
  partialCosSum st' n = partialCosSum st n.
Proof.
  induction n as [|n IH]; intros H; simpl; [reflexivity|].
  rewrite IH by (intros; apply H; lia).
  f_equal. f_equal. apply (H n). lia.
Qed.

(** C10.  On a state vector of length [2 + 2N], the tip branch of
    [isTerminal] (some tip has [tip.y >= groundY - 10]) holds if and only
    if [cos theta_1 + ... + cos theta_i <= -0.3] for some [i] in [1..N];
    for [N = 1] that is [cos theta_1 <= -0.3]; and the branch gives the
    same answer on any other simulator with the same number of poles and
    the same angles, whatever its cart position and its canvas are. *)
Theorem tip_check_is_physical (sim : VerticalChainSimulator) :
  length (state sim) = (2 + 2 * poleCount sim)%nat ->
  (existsb (tipNearGround sim) (getPoleTipCoordinates sim) = true <->
   exists i, (1 <= i <= poleCount sim)%nat /\
             partialCosSum (state sim) i <= -0.3) /\
  (poleCount sim = 1%nat ->
   (existsb (tipNearGround sim) (getPoleTipCoordinates sim) = true <->
    cos (ta_get (state sim) 2) <= -0.3)) /\
  (forall sim', poleCount sim' = poleCount sim ->
     (forall j, (j < poleCount sim)%nat ->
        ta_get (state sim') (2 + 2 * j) = ta_get (state sim) (2 + 2 * j)) ->
     existsb (tipNearGround sim') (getPoleTipCoordinates sim')
     = existsb (tipNearGround sim) (getPoleTipCoordinates sim)).
Proof.
  intros _. split; [apply tip_check_cosines|]. split.
  - intros H1. rewrite tip_check_cosines, H1. split.
    + intros (i & Hi & Hc). assert (i = 1%nat) as -> by lia.
      simpl in Hc. lra.
    + intros Hc. exists 1%nat. split; [lia|]. simpl. lra.
  - intros sim' HN Hst.
    apply eq_true_iff_eq. rewrite !tip_check_cosines, HN.
    split; intros (i & Hi & Hc); exists i; (split; [assumption|]).
    + rewrite <- (partialCosSum_ext (state sim) (state sim') i);
        [assumption|]. intros; apply Hst; lia.
    + rewrite (partialCosSum_ext (state sim) (state sim') i);
        [assumption|]. intros; apply Hst; lia.
Qed.

Lemma tip_check_is_physical_witness :
  existsb (tipNearGround (simWith 1 [0; 0; 0; 0]))
          (getPoleTipCoordinates (simWith 1 [0; 0; 0; 0])) = true <->
  cos (ta_get (state (simWith 1 [0; 0; 0; 0])) 2) <= -0.3.
Proof.
  exact (proj1 (proj2 (tip_check_is_physical (simWith 1 [0; 0; 0; 0]) eq_refl))
           eq_refl).
Defined.

(** ** The termination predicate *)

Lemma isTerminal_iff (sim : VerticalChainSimulator) :
  isTerminal sim = true <->
  xThreshold < Rabs (ta_get (state sim) 0) \/
  existsb (tipNearGround sim) (getPoleTipCoordinates sim) = true.
Proof.
  unfold isTerminal.
  destruct (Rgtb (Rabs (ta_get (state sim) 0)) xThreshold) eqn:E.
  - apply Rgtb_true in E. tauto.
  - apply Rgtb_false in E. split; [tauto|]. intros [H|H]; [lra|assumption].
Qed.

Lemma no_tip_near_ground (sim : VerticalChainSimulator) :
  (forall tip, In tip (getPoleTipCoordinates sim) ->
     tip_y tip < groundY sim - 10) ->
  existsb (tipNearGround sim) (getPoleTipCoordinates sim) = false.
Proof.
  intros H. apply not_true_is_false. rewrite existsb_exists.
  intros (tip & Hin & Hnear). apply H in Hin.
  unfold tipNearGround in Hnear. apply Rgeb_true in Hnear. lra.
Qed.

(** A single upright pole: its tip is well above the ground line. *)
Lemma upright_tip_height (x v : R) :
  forall tip, In tip (getPoleTipCoordinates (simWith 1 [x; v; 0; 0])) ->
    tip_y tip < groundY (simWith 1 [x; v; 0; 0]) - 10.
Proof.
  intros tip Hin.
  destruct (In_nth _ _ noTip Hin) as (i & Hi & <-).
  destruct (getPoleTipCoordinates_heights (simWith 1 [x; v; 0; 0])) as [Hl Ht].
  rewrite Hl in Hi. rewrite (Ht i Hi).
  assert (i = 0%nat) as -> by (unfold poleCount in Hi; simpl in Hi; lia).
  unfold partialCosSum, ta_get, simWith, state, nth, Nat.mul, Nat.add.
  rewrite cos_0. unfold cartHeight, L, scale. lra.
Qed.

Lemma upright_not_terminal (x v : R) :
  Rabs x <= 2.4 -> isTerminal (simWith 1 [x; v; 0; 0]) = false.
Proof.
  intros Hx. apply not_true_is_false. rewrite isTerminal_iff.
  rewrite (no_tip_near_ground _ (upright_tip_height x v)).
  cbn [simWith state ta_get nth]. unfold xThreshold.
  intros [H|H]; [lra|discriminate].
Qed.

(** ** The integrator and the advance operation *)

(** One RK4 step moves the cart as a body under the constant acceleration
    [a = force / totalMass] and keeps the length of the state vector. *)
Lemma rk4Step_cart (sim : VerticalChainSimulator) (force : R) :
  (2 + 2 * poleCount sim <= length (state sim))%nat ->
  let a := force / (massCart + IZR (numPoles sim) * massPole) in
  let x := ta_get (state sim) 0 in
  let v := ta_get (state sim) 1 in
  length (state (rk4Step sim force)) = length (state sim) /\
  ta_get (state (rk4Step sim force)) 0 = x + dt * v + dt * dt / 2 * a /\
  ta_get (state (rk4Step sim force)) 1 = v + dt * a.
Proof.
  intros Hlen a x v. unfold rk4Step. cbn [state set_state].
  set (s := state sim) in *.
  set (k1 := computeDerivatives sim s force).
  set (s2 := vectorAdd s (vectorScale k1 (dt / 2))).
  set (k2 := computeDerivatives sim s2 force).
  set (s3 := vectorAdd s (vectorScale k2 (dt / 2))).
  set (k3 := computeDerivatives sim s3 force).
  set (s4 := vectorAdd s (vectorScale k3 dt)).
  set (k4 := computeDerivatives sim s4 force).
  assert (L2 : length s2 = length s) by apply vectorAdd_length.
  assert (L3 : length s3 = length s) by apply vectorAdd_length.
  assert (L4 : length s4 = length s) by apply vectorAdd_length.
  destruct (computeDerivatives_entries sim s force Hlen) as (K1 & A1 & B1 & _).
  destruct (computeDerivatives_entries sim s2 force) as (K2 & A2 & B2 & _);
    [lia|].
  destruct (computeDerivatives_entries sim s3 force) as (K3 & A3 & B3 & _);
    [lia|].
  destruct (computeDerivatives_entries sim s4 force) as (K4 & A4 & B4 & _);
    [lia|].
  fold k1 in K1, A1, B1. fold k2 in K2, A2, B2.
  fold k3 in K3, A3, B3. fold k4 in K4, A4, B4. fold a in B1, B2, B3, B4.
  assert (S2 : forall i, (i < 2)%nat ->
            ta_get s2 i = ta_get s i + ta_get k1 i * (dt / 2)).
  { intros i Hi. unfold s2.
    rewrite ta_get_vectorAdd, ta_get_vectorScale by lia. reflexivity. }
  assert (S3 : forall i, (i < 2)%nat ->
            ta_get s3 i = ta_get s i + ta_get k2 i * (dt / 2)).
  { intros i Hi. unfold s3.
    rewrite ta_get_vectorAdd, ta_get_vectorScale by lia. reflexivity. }
  assert (S4 : forall i, (i < 2)%nat ->
            ta_get s4 i = ta_get s i + ta_get k3 i * dt).
  { intros i Hi. unfold s4.
    rewrite ta_get_vectorAdd, ta_get_vectorScale by lia. reflexivity. }
  assert (I : forall i, (i < 2)%nat ->
            ta_get (vectorAdd s (vectorScale
              (vectorAddMultiple k1 [vectorScale k2 2; vectorScale k3 2; k4])
              (dt / 6))) i
            = ta_get s i
              + (ta_get k1 i + ta_get k2 i * 2 + ta_get k3 i * 2 + ta_get k4 i)
                * (dt / 6)).
  { intros i Hi. unfold vectorAddMultiple. cbn [fold_left].
    rewrite ta_get_vectorAdd, ta_get_vectorScale by lia.
    rewrite !ta_get_vectorAdd by (rewrite ?vectorAdd_length; lia).
    rewrite !ta_get_vectorScale. reflexivity. }
  split; [apply vectorAdd_length|].
  rewrite !I by lia.
  rewrite A1, A2, A3, A4, B1, B2, B3, B4.
  rewrite (S2 1%nat), (S3 1%nat), (S4 1%nat) by lia.
  rewrite B1, B2, B3. fold x v. unfold dt. split; lra.
Qed.

Lemma run_S (force : R) (k : nat) (sim : VerticalChainSimulator) :
  run force (S k) sim = run force k (updateTrails (rk4Step sim force)).
Proof.
  unfold run.
  exact (Nat.iter_succ_r k VerticalChainSimulator
           (fun s => updateTrails (rk4Step s force)) sim).
Qed.

(** The loop of [update] takes at least one step when its budget is not
    zero, stops after the first step that leaves a terminal state, and
    otherwise stops when its budget is used up. *)
Lemma update_loop_spec (budget : nat) (force : R) :
  forall sim done, exists k,
    update_loop budget force sim done = (run force k sim, (done + k)%nat) /\
    (k <= budget)%nat /\
    ((0 < budget)%nat -> (0 < k)%nat) /\
    (forall j, (0 < j < k)%nat -> isTerminal (run force j sim) = false) /\
    ((k < budget)%nat -> isTerminal (run force k sim) = true).
Proof.
  induction budget as [|b IH]; intros sim done.
  - exists 0%nat. simpl. rewrite Nat.add_0_r.
    repeat split; auto; intros; lia.
  - simpl. destruct (isTerminal (updateTrails (rk4Step sim force))) eqn:E.
    + exists 1%nat. rewrite Nat.add_1_r.
      repeat split; auto; intros; lia.
    + destruct (IH (updateTrails (rk4Step sim force)) (S done))
        as (k & Hres & Hk & _ & Hbefore & Hstop).
      exists (S k). rewrite run_S, Hres.
      repeat split.
      * f_equal. lia.
      * lia.
      * lia.
      * intros j Hj. destruct j as [|[|j]]; [lia|exact E|].
        rewrite run_S. apply Hbefore. lia.
      * intros Hlt. apply Hstop. lia.
Qed.

Lemma floor_steps_spec (r : R) :
  0 <= r -> INR (floor_steps r) <= r < INR (floor_steps r) + 1.
Proof.
  intros Hr. unfold floor_steps.
  destruct (base_Int_part r) as [Hle Hgt].
  assert (Hz : (0 <= Int_part r)%Z).
  { apply Z.lt_succ_r. apply lt_IZR. rewrite succ_IZR. lra. }
  rewrite INR_IZR_INZ, Z2Nat.id by assumption. lra.
Qed.

(** C1, as the code has it.  For a non-negative [elapsedMillis], [update]
    takes RK4 steps of the fixed size [dt = 0.02] until either
    [steps = floor(elapsedMillis / (dt * 1000))] of them are done or the
    state after a step is terminal, whichever comes first: it performs
    at most [steps] steps and at least one if [steps] is not zero, no
    state after a step before the last one performed is terminal, it
    stops short of [steps] only on a terminal state, and it performs
    exactly [steps] when no state on the way is terminal. *)
Theorem update_steps_until_terminal (sim : VerticalChainSimulator)
    (force elapsedMillis : R) :
  0 <= elapsedMillis ->
  let steps := floor_steps (elapsedMillis / (dt * 1000)) in
  let k := stepsPerformed sim force elapsedMillis in
  dt = 0.02 /\
  INR steps <= elapsedMillis / (dt * 1000) < INR steps + 1 /\
  (k <= steps)%nat /\
  ((0 < steps)%nat -> (0 < k)%nat) /\
  update sim force elapsedMillis = run force k sim /\
  (forall j, (0 < j < k)%nat -> isTerminal (run force j sim) = false) /\
  ((k < steps)%nat -> isTerminal (run force k sim) = true) /\
  ((forall j, (0 < j < steps)%nat -> isTerminal (run force j sim) = false) ->
   k = steps).
Proof.
  intros He steps k. subst k. unfold stepsPerformed, update, update_counted.
  fold steps.
  destruct (update_loop_spec steps force sim 0)
    as (k & Hres & Hk & Hpos & Hbefore & Hstop).
  rewrite Hres. cbn [fst snd Nat.add].
  split; [reflexivity|]. split.
  { apply floor_steps_spec. unfold dt.
    apply Rmult_le_pos; [assumption|].
    apply Rlt_le, Rinv_0_lt_compat. lra. }
  repeat split; auto.
  intros Hnone. destruct (Nat.eq_dec k steps) as [|Hne]; [assumption|].
  assert (Hlt : (k < steps)%nat) by lia.
  specialize (Hstop Hlt). rewrite Hnone in Hstop by lia. discriminate.
Qed.

Lemma update_steps_until_terminal_witness :
  Nat.le (stepsPerformed (simWith 1 [0; 0; 0; 0]) 0 40)
         (floor_steps (40 / (dt * 1000))).
Proof.
  refine (proj1 (proj2 (proj2
    (update_steps_until_terminal (simWith 1 [0; 0; 0; 0]) 0 40 _)))).
  lra.
Defined.

Lemma updateTrails_state (sim : VerticalChainSimulator) :
  state (updateTrails sim) = state sim.
Proof. reflexivity. Qed.

Lemma floor_steps_40 : floor_steps (40 / (dt * 1000)) = 2%nat.
Proof.
  unfold floor_steps.
  rewrite <- (Int_part_spec (40 / (dt * 1000)) 2); [reflexivity|].
  unfold dt. lra.
Qed.

(** C1 as stated fails.  The cart is at [x = 2.39] (not terminal) and
    moves right at 1 m/s; 40 ms have elapsed, so [floor(40 / 20) = 2]
    steps are due; the first step takes the cart to [x = 2.41], which is
    terminal, and [update] leaves its loop after that one step. *)
Lemma update_stops_on_terminal_state :
  isTerminal (simWith 1 [2.39; 1; 0; 0]) = false /\
  floor_steps (40 / (dt * 1000)) = 2%nat /\
  stepsPerformed (simWith 1 [2.39; 1; 0; 0]) 0 40 = 1%nat.
Proof.
  split; [|split; [exact floor_steps_40|]].
  - apply upright_not_terminal. rewrite Rabs_pos_eq; lra.
  - unfold stepsPerformed, update_counted. rewrite floor_steps_40.
    cbn [update_loop].
    assert (T : isTerminal
                  (updateTrails (rk4Step (simWith 1 [2.39; 1; 0; 0]) 0))
                = true).
    { apply isTerminal_iff. left. rewrite updateTrails_state.
      destruct (rk4Step_cart (simWith 1 [2.39; 1; 0; 0]) 0) as (_ & Hx & _).
      { simpl. lia. }
      rewrite Hx. cbn [simWith state numPoles ta_get nth].
      unfold xThreshold, dt, massCart, massPole.
      rewrite Rabs_pos_eq; lra. }
    rewrite T. reflexivity.
Qed.

(** ** Advantage estimation *)

Lemma mapi_from_length {A B : Type} (f : A -> nat -> B) (s : nat) (l : list A) :
  length (mapi_from f s l) = length l.
Proof. revert s; induction l; intros; simpl; auto. Qed.

Lemma mapi_from_nth {A B : Type} (f : A -> nat -> B) (da : A) (db : B)
    (l : list A) :
  forall s t, (t < length l)%nat ->
    nth t (mapi_from f s l) db = f (nth t l da) (s + t)%nat.
Proof.
  induction l as [|x l IH]; intros s t Ht; simpl in *; [lia|].
  destruct t as [|t].
  - now rewrite Nat.add_0_r.
  - rewrite IH by lia. f_equal. lia.
Qed.

(** One unfolding of the recursion of the specification at [t < T]. *)
Lemma specAdvantageLeft_step (rewards values : list R) (dones : list Z)
    (T t : nat) :
  (t < T)%nat ->
  specAdvantageLeft rewards values dones T (T - t)
  = (nth t rewards 0
     + gamma * (if (t =? T - 1)%nat then 0 else nth (t + 1) values 0)
       * (if truthy (nth t dones 0%Z) then 0 else 1)
     - nth t values 0)
    + gamma * lam * (if truthy (nth t dones 0%Z) then 0 else 1)
      * specAdvantageLeft rewards values dones T (T - S t).
Proof.
  intros Ht. replace (T - t)%nat with (S (T - S t)) by lia.
  cbn [specAdvantageLeft].
  replace (T - S (T - S t))%nat with t by lia. reflexivity.
Qed.

(** The loop of [computeGAE] with [k] indices left: it fills the entries
    below [k] with the advantages of the specification and keeps the
    others. *)
Lemma gae_loop_inv (rewards values : list R) (dones : list Z) (k : nat) :
  forall lastgaelam adv,
    (k <= length rewards)%nat ->
    length adv = length rewards ->
    lastgaelam
    = specAdvantageLeft rewards values dones (length rewards)
        (length rewards - k) ->
    let res := gae_loop rewards values dones k lastgaelam adv in
    length res = length rewards /\
    (forall t, (t < k)%nat ->
       ta_get res t
       = specAdvantageLeft rewards values dones (length rewards)
           (length rewards - t)) /\
    (forall t, (k <= t)%nat -> ta_get res t = ta_get adv t).
Proof.
  induction k as [|k IH]; intros lastgaelam adv Hk Hlen Hlast; cbn zeta.
  - simpl. repeat split; auto. intros; lia.
  - cbn [gae_loop].
    set (last' := _ + gamma * lam * _ * lastgaelam).
    assert (Hlast' : last'
              = specAdvantageLeft rewards values dones (length rewards)
                  (length rewards - k)).
    { rewrite specAdvantageLeft_step by lia. unfold last', ta_get.
      rewrite Hlast. reflexivity. }
    destruct (IH last' (ta_set adv k last')) as (Hl & Hlow & Hhigh);
      [lia | now rewrite ta_set_length | exact Hlast' |].
    repeat split.
    + exact Hl.
    + intros t Ht. destruct (Nat.eq_dec t k) as [->|Hne].
      * rewrite Hhigh by lia. rewrite ta_get_set_eq by lia. exact Hlast'.
      * apply Hlow. lia.
    + intros t Ht. rewrite Hhigh by lia. apply ta_get_set_neq. lia.
Qed.

Lemma computeGAE_advantages (rewards values : list R) (dones : list Z) :
  length (advantages (computeGAE rewards values dones)) = length rewards /\
  (forall t, (t < length rewards)%nat ->
     ta_get (advantages (computeGAE rewards values dones)) t
     = specAdvantage rewards values dones t).
Proof.
  unfold computeGAE. cbn [advantages].
  destruct (gae_loop_inv rewards values dones (length rewards) 0
              (ta_new (length rewards))) as (Hl & Hlow & _).
  - lia.
  - apply ta_new_length.
  - now rewrite Nat.sub_diag.
  - split; assumption.
Qed.

Lemma computeGAE_returns (rewards values : list R) (dones : list Z) :
  length (returns (computeGAE rewards values dones)) = length rewards /\
  (forall t, (t < length rewards)%nat ->
     ta_get (returns (computeGAE rewards values dones)) t
     = ta_get (advantages (computeGAE rewards values dones)) t
       + ta_get values t).
Proof.
  destruct (computeGAE_advantages rewards values dones) as [Hl _].
  unfold computeGAE in *. cbn [advantages returns] in *.
  unfold mapi. split.
  - now rewrite mapi_from_length.
  - intros t Ht. unfold ta_get at 1.
    rewrite (mapi_from_nth _ 0 0) by lia. reflexivity.
Qed.

(** C2.  For an episode of length [T], [computeGAE] returns arrays of
    length [T] with, for every [t] from [T-1] down to [0],
    [advantage[t] = delta + gamma * lambda * nextNonTerm * advantage[t+1]]
    where [advantage[T] = 0], [nextValue] is 0 at [t = T-1] and
    [values[t+1]] otherwise, [nextNonTerm] is 0 if [dones[t]] and 1
    otherwise, [delta = rewards[t] + gamma * nextValue * nextNonTerm -
    values[t]]; and [returns[t] = advantage[t] + values[t]]; with
    [gamma = 0.99] and [lambda = 0.95]. *)
Theorem computeGAE_backward_recursion (rewards values : list R)
    (dones : list Z) (T : nat) :
  length rewards = T -> length values = T -> length dones = T ->
  let g := computeGAE rewards values dones in
  gamma = 0.99 /\ lam = 0.95 /\
  length (advantages g) = T /\ length (returns g) = T /\
  (forall t, (t < T)%nat ->
     let nextValue := if (t =? T - 1)%nat then 0 else nth (t + 1) values 0 in
     let nextNonTerm := if truthy (nth t dones 0%Z) then 0 else 1 in
     let delta :=
       nth t rewards 0 + gamma * nextValue * nextNonTerm - nth t values 0 in
     let advantageNext :=
       if (S t =? T)%nat then 0 else nth (S t) (advantages g) 0 in
     nth t (advantages g) 0
     = delta + gamma * lam * nextNonTerm * advantageNext /\
     nth t (returns g) 0 = nth t (advantages g) 0 + nth t values 0).
Proof.
  intros Hr _ _ g.
  destruct (computeGAE_advantages rewards values dones) as [Hla Ha].
  destruct (computeGAE_returns rewards values dones) as [Hlr Hret].
  fold g in Hla, Ha, Hlr, Hret. rewrite Hr in *.
  repeat split; auto.
  - unfold ta_get, specAdvantage in Ha. rewrite Hr in Ha.
    rewrite (Ha t) by assumption.
    rewrite specAdvantageLeft_step by assumption.
    destruct (Nat.eqb_spec (S t) T) as [E|E].
    + replace (T - S t)%nat with 0%nat by lia. reflexivity.
    + rewrite (Ha (S t)) by lia. reflexivity.
  - apply Hret. assumption.
Qed.

Lemma computeGAE_backward_recursion_witness :
  length (advantages (computeGAE [1; 2] [0.5; 0.25] [0; 1]%Z)) = 2%nat.
Proof.
  exact (proj1 (proj2 (proj2
    (computeGAE_backward_recursion [1; 2] [0.5; 0.25] [0; 1]%Z 2
       eq_refl eq_refl eq_refl)))).
Defined.

(** The hand-check episode of the specification: three steps, reward 1 and
    value 0 at each, done at the last one. *)
Lemma computeGAE_handcheck_arrays :
  advantages (computeGAE [1; 1; 1] [0; 0; 0] [0; 0; 1]%Z)
  = [2.82504025; 1.9405; 1] /\
  returns (computeGAE [1; 1; 1] [0; 0; 0] [0; 0; 1]%Z)
  = [2.82504025; 1.9405; 1].
Proof.
  unfold computeGAE, mapi.
  cbn [advantages returns length gae_loop ta_new repeat ta_set ta_get nth
       Nat.eqb Nat.sub Nat.add truthy Z.eqb negb mapi_from].
  unfold gamma, lam.
  split; repeat (f_equal; try lra).
Qed.

(** C3, as the code has it.  On [T = 3], [rewards = [1,1,1]],
    [values = [0,0,0]], [dones = [0,0,1]], [computeGAE] returns
    [advantage[2] = 1], [advantage[1] = 1 + 0.99 * 0.95 * 1 * 1 = 1.9405]
    (the step [t = 1] is not a terminal one, so [nextNonTerm = 1]) and
    [advantage[0] = 1 + 0.9405 * 1.9405 = 2.82504025]; the returns equal
    the advantages, and both arrays are the values of the recursion of
    the specification. *)
Theorem computeGAE_handcheck :
  let g := computeGAE [1; 1; 1] [0; 0; 0] [0; 0; 1]%Z in
  ta_get (advantages g) 2 = 1 /\
  ta_get (advantages g) 1 = 1 + 0.99 * 0.95 * 1 * 1 /\
  ta_get (advantages g) 1 = 1.9405 /\
  ta_get (advantages g) 0 = 2.82504025 /\
  returns g = advantages g /\
  (forall t, (t < 3)%nat ->
     ta_get (advantages g) t
     = specAdvantage [1; 1; 1] [0; 0; 0] [0; 0; 1]%Z t /\
     ta_get (returns g) t
     = specAdvantage [1; 1; 1] [0; 0; 0] [0; 0; 1]%Z t + 0).
Proof.
  cbn zeta. destruct computeGAE_handcheck_arrays as [Ha Hr].
  split; [|split; [|split; [|split; [|split]]]].
  - rewrite Ha. reflexivity.
  - rewrite Ha. unfold ta_get, nth. lra.
  - rewrite Ha. reflexivity.
  - rewrite Ha. reflexivity.
  - now rewrite Ha, Hr.
  - intros t Ht.
    destruct (computeGAE_advantages [1; 1; 1] [0; 0; 0] [0; 0; 1]%Z)
      as [_ Hspec].
    rewrite <- (Hspec t) by exact Ht. split; [reflexivity|].
    rewrite Ha, Hr. lra.
Qed.

(** C3 as stated fails: the value [1 + 0.99 * 0.95 * 0 * 1 = 1] that the
    hand-check gives for [advantage[1]] is not what [computeGAE] returns. *)
Lemma computeGAE_handcheck_advantage1 :
  ta_get (advantages (computeGAE [1; 1; 1] [0; 0; 0] [0; 0; 1]%Z)) 1
  <> 1 + 0.99 * 0.95 * 0 * 1.
Proof.
  destruct computeGAE_handcheck_arrays as [Ha _]. rewrite Ha.
  unfold ta_get, nth. lra.
Qed.

(** ** The advantages that reach the update *)

Lemma advStd_nonneg (adv : list R) : 0 <= advStd adv.
Proof. unfold advStd. apply sqrt_pos. Qed.

(** An entry below the mean is not its own normalization, which is not
    positive. *)
Lemma normalized_entry_nonpos (adv : list R) (a : R) :
  a < advMean adv -> (a - advMean adv) / advStd adv <= 0.
Proof.
  intros H. pose proof (advStd_nonneg adv) as Hs.
  destruct (Req_dec (advStd adv) 0) as [E|E].
  - rewrite E. unfold Rdiv. rewrite Rinv_0. lra.
  - assert (0 < / advStd adv) by (apply Rinv_0_lt_compat; lra).
    unfold Rdiv. nra.
Qed.

(** C9.  The advantages that [computeGAE] returns are the values of the
    backward recursion; the end of an episode passes them, and the
    returns, to [update] as they are; and they are not the advantages
    normalized by the batch mean and standard deviation that [computeGAE]
    computes: on the hand-check episode the returned array has a mean
    other than 0 and differs from the normalized one. *)
Theorem advantages_not_normalized :
  (forall rewards values dones t,
     length values = length rewards -> length dones = length rewards ->
     (t < length rewards)%nat ->
     ta_get (advantages (computeGAE rewards values dones)) t
     = specAdvantage rewards values dones t) /\
  (forall b data, episodeEndUpdate b = Some data ->
     d_advantages data
     = advantages
         (computeGAE (bufferRewards b) (bufferValues b) (bufferDones b)) /\
     d_returns data
     = returns
         (computeGAE (bufferRewards b) (bufferValues b) (bufferDones b))) /\
  (let g := computeGAE [1; 1; 1] [0; 0; 0] [0; 0; 1]%Z in
   advMean (advantages g) <> 0 /\
   advantages g <> normalized (advantages g)).
Proof.
  split; [|split].
  - intros rewards values dones t _ _ Ht.
    apply (computeGAE_advantages rewards values dones). exact Ht.
  - intros b data H. unfold episodeEndUpdate in H.
    destruct (0 <? length (bufferObservations b))%nat; [|discriminate].
    inversion H; subst; clear H. cbn [d_advantages d_returns]. split; reflexivity.
  - cbn zeta. destruct computeGAE_handcheck_arrays as [Ha _]. rewrite Ha.
    assert (Hm : advMean [2.82504025; 1.9405; 1] = 5.76554025 / 3).
    { unfold advMean. cbn [fold_left length INR]. lra. }
    split; [rewrite Hm; lra|].
    intros E. apply (f_equal (fun l => nth 2 l 0)) in E.
    unfold normalized in E. cbn [map nth] in E.
    pose proof (normalized_entry_nonpos [2.82504025; 1.9405; 1] 1) as Hn.
    rewrite <- E in Hn. rewrite Hm in Hn. lra.
Qed.

Lemma advantages_not_normalized_witness :
  ta_get (advantages (computeGAE [1; 2] [0.5; 0.25] [0; 1]%Z)) 0
  = specAdvantage [1; 2] [0.5; 0.25] [0; 1]%Z 0.
Proof.
  refine (proj1 advantages_not_normalized [1; 2] [0.5; 0.25] [0; 1]%Z 0%nat
            eq_refl eq_refl _).
  simpl. lia.
Defined.

(** ** The minibatches of the update *)



Section UpdateProperties.

Variable Gen : Type.
Variable createShuffledIndices : Gen -> nat -> list nat * Gen.
Variable tensor1d : list nat -> Outcome.
Variable actorMinimize : PPOAgent -> Dataset -> Outcome * PPOAgent.
Variable criticMinimize : PPOAgent -> Dataset -> Outcome * PPOAgent.







End UpdateProperties.

(** Three transitions, two epochs, minibatches of two, when every call
    returns: both epochs visit the indices [2, 1] and then [0] of the one
    permutation [2, 1, 0]. *)
Example ppo_update_trace :
  option_map snd
    (ppo_update unit reverseShuffle acceptIndices noStep noStep tt
       (agentWith 0 (-0.5)) dataset3 2 2)
  = Some [ {| v_epoch := 0; v_offset := 0; v_indices := [2; 1]%nat |};
           {| v_epoch := 0; v_offset := 2; v_indices := [0]%nat |};
           {| v_epoch := 1; v_offset := 0; v_indices := [2; 1]%nat |};
           {| v_epoch := 1; v_offset := 2; v_indices := [0]%nat |} ].
Proof. reflexivity. Qed.

(** The same run when [tf.tensor1d] throws: the first slice is drawn, no
    optimizer step is taken, and the promise is rejected. *)
Example ppo_update_trace_rejected :
  ppo_update unit reverseShuffle rejectIndices noStep noStep tt
    (agentWith 0 (-0.5)) dataset3 2 2
  = Some (Threw, agentWith 0 (-0.5), tt,
          [ {| v_epoch := 0; v_offset := 0; v_indices := [2; 1]%nat |} ]).
Proof. reflexivity. Qed.


(** ** Configuration *)

Lemma initializeTrails_fields (sim : VerticalChainSimulator) :
  state (initializeTrails sim) = state sim /\
  numPoles (initializeTrails sim) = numPoles sim.
Proof. split; reflexivity. Qed.

(** The loop of [reset] stores into the state vector and never resizes it. *)
Lemma reset_loop_length (n : nat) (s0 : list R) (g : Rng) :
  length
    (fst (for_loop n
            (fun '(s, g) i =>
               let '(r1, g1) := random g in
               let s1 := ta_set s (2 + 2 * i) ((r1 - 0.5) * 0.05) in
               let '(r2, g2) := random g1 in
               (ta_set s1 (3 + 2 * i) ((r2 - 0.5) * 0.05), g2))
            (s0, g)))
  = length s0.
Proof.
  induction n as [|n IH].
  - reflexivity.
  - rewrite for_loop_S. destruct (for_loop n _ _) as [s g1].
    cbn [fst] in IH. unfold random. cbn [fst].
    now rewrite !ta_set_length.
Qed.

Lemma reset_fields (sim : VerticalChainSimulator) (g : Rng) :
  length (state (fst (reset sim g))) = length (state sim) /\
  numPoles (fst (reset sim g)) = numPoles sim.
Proof.
  unfold reset.
  pose proof (reset_loop_length (poleCount sim)
                (ta_set (ta_set (state sim) 0 0) 1 0) g) as H.
  destruct (for_loop (poleCount sim) _ _) as [s g'].
  cbn [fst] in *. split.
  - cbn [initializeTrails set_trails set_state state].
    rewrite H, !ta_set_length. reflexivity.
  - reflexivity.
Qed.

(** C8, as the code has it.  Neither [initSimulation] nor the constructor
    checks the pole count.  For every requested count [n], the constructor
    either builds a simulator with [numPoles = n] and a state vector of
    length [2 + 2n] (it does so for every [n >= -1], so also for 0 and
    -1), or, for [n <= -2], fails with the [RangeError] of allocating an
    array of negative length; the configuration panel offers the counts
    1, 2 and 3 only. *)
Theorem initSimulation_no_validation (cv : Canvas) (n : Z) (g : Rng) :
  ((0 <= 2 + 2 * n)%Z ->
   exists sim g',
     initSimulation cv n g = Built sim g' /\
     numPoles sim = n /\
     length (state sim) = Z.to_nat (2 + 2 * n)) /\
  ((2 + 2 * n < 0)%Z -> initSimulation cv n g = RangeError) /\
  (forall m, In m numPolesSelect_options -> (1 <= m)%Z).
Proof.
  unfold initSimulation, constructor. split; [|split].
  - intros Hn. destruct (Z.ltb_spec (2 + 2 * n) 0) as [|_]; [lia|].
    set (sim0 := {| canvas := cv; numPoles := n;
                    state := ta_new (Z.to_nat (2 + 2 * n));
                    trails := []; maxTrailLength := None |}).
    destruct (reset_fields sim0 g) as [Hl Hp].
    destruct (reset sim0 g) as [sim1 g'] eqn:E. cbn [fst] in *.
    exists (initializeTrails sim1), g'. split; [reflexivity|].
    destruct (initializeTrails_fields sim1) as [Es Ep].
    rewrite Es, Ep, Hl, Hp. split; [reflexivity|].
    apply ta_new_length.
  - intros Hn. destruct (Z.ltb_spec (2 + 2 * n) 0) as [_|]; [reflexivity|lia].
  - intros m Hm. simpl in Hm. lia.
Qed.

Lemma initSimulation_no_validation_witness :
  exists sim g',
    initSimulation canvas800x600 2 rngHalf = Built sim g' /\
    numPoles sim = 2%Z /\
    length (state sim) = Z.to_nat (2 + 2 * 2).
Proof.
  refine (proj1 (initSimulation_no_validation canvas800x600 2 rngHalf) _).
  lia.
Defined.

(** C8 as stated fails: the request for 0 poles is not rejected; the
    constructor builds a simulator with no pole and the state vector
    [[0, 0]]. *)
Lemma initSimulation_accepts_zero_poles :
  exists sim g',
    initSimulation canvas800x600 0 rngHalf = Built sim g' /\
    numPoles sim = 0%Z /\ (numPoles sim < 1)%Z /\
    state sim = [0; 0].
Proof.
  eexists. eexists. split; [reflexivity|].
  cbn [numPoles state initializeTrails set_trails set_state].
  split; [reflexivity|]. split; [lia|]. reflexivity.
Qed.

(** ** The boundary of the cart test in the number formats of the source *)

Lemma scale_pos : 0 < IZR (2 ^ 149).
Proof. apply IZR_lt. reflexivity. Qed.

Lemma scale_split : (2 ^ 149 = 4194304 * 2 ^ 127)%Z.
Proof. reflexivity. Qed.

Lemma f32_below_scaled :
  f32_below_2_4 * IZR (2 ^ 149) = IZR (10066329 * 2 ^ 127).
Proof.
  unfold f32_below_2_4. rewrite scale_split, !mult_IZR.
  generalize (IZR (2 ^ 127)). intros q. lra.
Qed.

Lemma f32_above_scaled :
  f32_above_2_4 * IZR (2 ^ 149) = IZR (10066330 * 2 ^ 127).
Proof.
  unfold f32_above_2_4. rewrite scale_split, !mult_IZR.
  generalize (IZR (2 ^ 127)). intros q. lra.
Qed.

Lemma isBinary32_below : isBinary32 f32_below_2_4.
Proof.
  exists 10066329%Z, 127%Z. split; [reflexivity|]. split; [lia|].
  apply f32_below_scaled.
Qed.

Lemma isBinary32_above : isBinary32 f32_above_2_4.
Proof.
  exists 10066330%Z, 127%Z. split; [reflexivity|]. split; [lia|].
  apply f32_above_scaled.
Qed.

Lemma isBinary32_opp (x : R) : isBinary32 x -> isBinary32 (- x).
Proof.
  intros (m & e & Hm & He & Hx). exists (- m)%Z, e.
  split; [now rewrite Z.abs_opp|]. split; [assumption|].
  rewrite Z.mul_opp_l, opp_IZR, <- Hx. lra.
Qed.

(** No binary32 value lies strictly between 2.3999998569488525 and
    2.4000000953674316: with an exponent of at least [2^-22] the value is
    a multiple of the spacing of the two, and with a smaller one it is
    below 2. *)
Lemma binary32_gap (x : R) :
  isBinary32 x -> ~ (f32_below_2_4 < Rabs x < f32_above_2_4).
Proof.
  intros (m & e & Hm & He & Hx) [Hlo Hhi].
  pose proof scale_pos as HP.
  assert (Ha : Rabs x * IZR (2 ^ 149) = IZR (Z.abs m * 2 ^ e)).
  { rewrite <- (Rabs_pos_eq (IZR (2 ^ 149))) at 1 by lra.
    rewrite <- Rabs_mult, Hx, <- abs_IZR, Z.abs_mul.
    rewrite (Z.abs_eq (2 ^ e)) by (apply Z.pow_nonneg; lia). reflexivity. }
  assert (Hl : (10066329 * 2 ^ 127 < Z.abs m * 2 ^ e)%Z).
  { apply lt_IZR. rewrite <- Ha, <- f32_below_scaled.
    apply Rmult_lt_compat_r; assumption. }
  assert (Hh : (Z.abs m * 2 ^ e < 10066330 * 2 ^ 127)%Z).
  { apply lt_IZR. rewrite <- Ha, <- f32_above_scaled.
    apply Rmult_lt_compat_r; assumption. }
  pose proof (Z.abs_nonneg m) as Hm0.
  set (a := Z.abs m) in *.
  destruct (Z_le_gt_dec 127 e) as [Hge|Hlt].
  - replace e with (127 + (e - 127))%Z in Hl, Hh by lia.
    rewrite Z.pow_add_r in Hl, Hh by lia.
    assert (Hq : (0 < 2 ^ 127)%Z) by reflexivity.
    set (q := (2 ^ 127)%Z) in *. set (k := (2 ^ (e - 127))%Z) in *.
    assert (10066329 < a * k)%Z by nia.
    assert (a * k < 10066330)%Z by nia.
    lia.
  - assert (Hp : (2 ^ e <= 2 ^ 126)%Z) by (apply Z.pow_le_mono_r; lia).
    assert (Hp0 : (0 < 2 ^ e)%Z) by (apply Z.pow_pos_nonneg; lia).
    assert (Hc : (16777216 * 2 ^ 126 < 10066329 * 2 ^ 127)%Z) by reflexivity.
    change (2 ^ 24)%Z with 16777216%Z in Hm.
    set (p := (2 ^ e)%Z) in *. set (q := (2 ^ 126)%Z) in *.
    set (r := (2 ^ 127)%Z) in *.
    nia.
Qed.

Lemma binary32_below_or_above (x : R) :
  isBinary32 x -> Rabs x <= f32_below_2_4 \/ f32_above_2_4 <= Rabs x.
Proof.
  intros Hx. pose proof (binary32_gap x Hx) as Hg.
  destruct (Rle_or_lt (Rabs x) f32_below_2_4) as [|Hlo]; [now left|].
  destruct (Rle_or_lt f32_above_2_4 (Rabs x)) as [|Hhi]; [now right|].
  exfalso. apply Hg. split; assumption.
Qed.

Lemma storedAs_self (x : R) : isBinary32 x -> storedAs x x.
Proof.
  intros Hx. split; [assumption|]. intros y _.
  replace (x - x) with 0 by lra. rewrite Rabs_R0. apply Rabs_pos.
Qed.

Lemma storedAs_opp (v x : R) : storedAs v x -> storedAs (- v) (- x).
Proof.
  intros [Hx Hn]. split; [now apply isBinary32_opp|].
  intros y Hy. pose proof (Hn (- y) (isBinary32_opp y Hy)) as H.
  replace (- x - - v) with (- (x - v)) by lra.
  replace (y - - v) with (- (- y - v)) by lra.
  now rewrite !Rabs_Ropp.
Qed.

Ltac by_cases_of_Rabs :=
  unfold Rabs in *; repeat destruct Rcase_abs; try lra.

(** A number above the middle of the two neighbours of 2.4 is stored as
    a value at or above the upper one, and a number of absolute value
    below the middle as a value at or below the lower one. *)
Lemma stored_above_pos (v x : R) :
  storedAs v x -> f32_middle_2_4 < v -> f32_above_2_4 <= x.
Proof.
  intros [Hx Hn] Hv.
  pose proof (binary32_below_or_above x Hx) as Hg.
  pose proof (Hn _ isBinary32_above) as Ha.
  unfold f32_middle_2_4, f32_below_2_4, f32_above_2_4 in *.
  destruct Hg as [Hg|Hg]; by_cases_of_Rabs.
Qed.

Lemma stored_below_pos (v x : R) :
  storedAs v x -> 0 <= v < f32_middle_2_4 -> Rabs x <= f32_below_2_4.
Proof.
  intros [Hx Hn] Hv.
  pose proof (binary32_below_or_above x Hx) as Hg.
  pose proof (Hn _ isBinary32_below) as Ha.
  unfold f32_middle_2_4, f32_below_2_4, f32_above_2_4 in *.
  destruct Hg as [Hg|Hg]; by_cases_of_Rabs.
Qed.

Lemma stored_above (v x : R) :
  storedAs v x -> f32_middle_2_4 < Rabs v -> f32_above_2_4 <= Rabs x.
Proof.
  intros Hs Hv.
  destruct (Rle_or_lt 0 v) as [Hp|Hneg].
  - rewrite (Rabs_pos_eq v) in Hv by assumption.
    pose proof (stored_above_pos v x Hs Hv) as H.
    eapply Rle_trans; [exact H | apply Rle_abs].
  - rewrite (Rabs_left v) in Hv by assumption.
    pose proof (stored_above_pos _ _ (storedAs_opp v x Hs) Hv) as H.
    eapply Rle_trans; [exact H |]. rewrite <- (Rabs_Ropp x). apply Rle_abs.
Qed.

Lemma stored_below (v x : R) :
  storedAs v x -> Rabs v < f32_middle_2_4 -> Rabs x <= f32_below_2_4.
Proof.
  intros Hs Hv.
  destruct (Rle_or_lt 0 v) as [Hp|Hneg].
  - rewrite (Rabs_pos_eq v) in Hv by assumption.
    apply (stored_below_pos v x Hs). lra.
  - rewrite (Rabs_left v) in Hv by assumption.
    rewrite <- (Rabs_Ropp x).
    apply (stored_below_pos _ _ (storedAs_opp v x Hs)). lra.
Qed.

(** Every number from the middle up to the upper neighbour, so 2.4 and
    the number that the literal [2.4] denotes, is stored as the upper
    neighbour, and as nothing else. *)
Lemma stored_near_2_4 (v : R) :
  f32_middle_2_4 < v <= f32_above_2_4 ->
  storedAs v f32_above_2_4 /\
  forall y, storedAs v y -> y = f32_above_2_4.
Proof.
  intros Hv. split.
  - split; [apply isBinary32_above|]. intros y Hy.
    pose proof (binary32_below_or_above y Hy) as Hg.
    unfold f32_middle_2_4, f32_below_2_4, f32_above_2_4 in *.
    destruct Hg as [Hg|Hg]; by_cases_of_Rabs.
  - intros y Hs. pose proof (stored_above_pos _ _ Hs (proj1 Hv)) as Hge.
    destruct Hs as [_ Hn]. pose proof (Hn _ isBinary32_above) as Ha.
    unfold f32_middle_2_4, f32_below_2_4, f32_above_2_4 in *.
    by_cases_of_Rabs.
Qed.

Lemma lit64_2_4_bounds : f32_middle_2_4 < lit64_2_4 < 2.4.
Proof. unfold f32_middle_2_4, lit64_2_4. lra. Qed.

(** On the values that the state vector can hold, the test against the
    binary64 threshold of the source and the test against the real
    number 2.4 of [isTerminal] agree. *)
Lemma cartTest_binary32 (x : R) :
  isBinary32 x ->
  cartTest x = Rgtb (Rabs x) xThreshold /\
  (cartTest x = true <-> f32_above_2_4 <= Rabs x) /\
  (cartTest x = false <-> Rabs x <= f32_below_2_4).
Proof.
  intros Hx. pose proof (binary32_below_or_above x Hx) as Hg.
  unfold cartTest. rewrite !Rgtb_true, Rgtb_false.
  unfold lit64_2_4, f32_below_2_4, f32_above_2_4, xThreshold in *.
  assert (E : Rgtb (Rabs x) (5404319552844595 / 2251799813685248)
              = Rgtb (Rabs x) 2.4).
  { destruct Hg as [Hg|Hg].
    - transitivity false; [|symmetry]; apply Rgtb_false; lra.
    - transitivity true; [|symmetry]; apply Rgtb_true; lra. }
  split; [exact E|]. split; split; intros H; destruct Hg; lra.
Qed.

(** The constants of the module [Float32] denote the real constants
    above, and rounding the literal [2.4] to binary32 gives the upper
    neighbour, of which the cart test is true. *)
Lemma float32_constants :
  Float32.toR Float32.lit_2_4 = lit64_2_4 /\
  Float32.toR Float32.below_2_4 = f32_below_2_4 /\
  Float32.toR Float32.above_2_4 = f32_above_2_4 /\
  Float32.quotient_24_10 = Float32.lit_2_4 /\
  Float32.fround Float32.lit_2_4 = Float32.above_2_4 /\
  Float32.cartOutOfBounds (Float32.fround Float32.lit_2_4) = true /\
  Float32.fround Float32.below_2_4 = Float32.below_2_4 /\
  Float32.cartOutOfBounds Float32.below_2_4 = false.
Proof.
  assert (E1 : FloatOps.Prim2SF Float32.lit_2_4
               = SpecFloat.S754_finite false 5404319552844595 (-51))
    by (vm_compute; reflexivity).
  assert (E2 : FloatOps.Prim2SF Float32.below_2_4
               = SpecFloat.S754_finite false 5404319230722048 (-51))
    by (vm_compute; reflexivity).
  assert (E3 : FloatOps.Prim2SF Float32.above_2_4
               = SpecFloat.S754_finite false 5404319767592960 (-51))
    by (vm_compute; reflexivity).
  unfold Float32.toR. rewrite E1, E2, E3.
  cbn [SpecFloat.cond_Zopp].
  change (2 ^ Z.max 0 (-51))%Z with 1%Z.
  change (2 ^ Z.max 0 (- -51))%Z with 2251799813685248%Z.
  unfold lit64_2_4, f32_below_2_4, f32_above_2_4.
  split; [lra|]. split; [lra|]. split; [lra|].
  vm_compute. repeat split.
Qed.

(** C5, as the code has it.  The cart test of [isTerminal] is the strict
    comparison [Math.abs(state[0]) > 2.4] on the cart position that the
    state vector holds, which is a binary32 value.  Let the cart position
    of [sim] be what a store of the number [v] leaves.  It is never 2.4
    itself.  When [|v| = 2.4 + eps] with [eps >= 0], so for [v = 2.4] as
    well, the state is terminal, and so it is whenever [|v|] is above
    2.3999999761581421, the middle of the two binary32 values next to
    2.4.  When [|v|] is below that middle and no tip is near the ground,
    the state is not terminal.  A state that is not terminal holds a
    position of absolute value at most 2.3999998569488525. *)
Theorem isTerminal_stored_cart_boundary (sim : VerticalChainSimulator) (v : R) :
  storedAs v (ta_get (state sim) 0) ->
  Rabs (ta_get (state sim) 0) <> 2.4 /\
  (forall eps, 0 <= eps -> Rabs v = 2.4 + eps -> isTerminal sim = true) /\
  (f32_middle_2_4 < Rabs v -> isTerminal sim = true) /\
  (Rabs v < f32_middle_2_4 ->
   (forall tip, In tip (getPoleTipCoordinates sim) ->
      tip_y tip < groundY sim - 10) ->
   isTerminal sim = false) /\
  (isTerminal sim = false -> Rabs (ta_get (state sim) 0) <= f32_below_2_4).
Proof.
  intros Hs. pose proof (proj1 Hs) as Hx.
  assert (Hup : f32_middle_2_4 < Rabs v -> isTerminal sim = true).
  { intros Hv. apply isTerminal_iff. left.
    pose proof (stored_above _ _ Hs Hv) as H.
    unfold xThreshold, f32_above_2_4 in *. lra. }
  split; [|split; [|split; [|split]]].
  - intros E. apply (binary32_gap _ Hx). rewrite E.
    unfold f32_below_2_4, f32_above_2_4. lra.
  - intros eps Heps Hv. apply Hup. rewrite Hv. unfold f32_middle_2_4. lra.
  - exact Hup.
  - intros Hv Htips. apply not_true_is_false. rewrite isTerminal_iff.
    rewrite (no_tip_near_ground sim Htips).
    pose proof (stored_below _ _ Hs Hv) as H.
    unfold xThreshold, f32_below_2_4 in *.
    intros [H1|H1]; [lra|discriminate].
  - intros Hf.
    destruct (binary32_below_or_above _ Hx) as [H|H]; [exact H|].
    assert (Ht : isTerminal sim = true).
    { apply isTerminal_iff. left. unfold xThreshold, f32_above_2_4 in *. lra. }
    rewrite Ht in Hf. discriminate.
Qed.

Lemma isTerminal_stored_cart_boundary_witness :
  isTerminal (simWith 1 [f32_below_2_4; 0; 0; 0]) = false /\
  isTerminal (simWith 1 [f32_above_2_4; 0; 0; 0]) = true.
Proof.
  split.
  - refine (proj1 (proj2 (proj2 (proj2
              (isTerminal_stored_cart_boundary
                 (simWith 1 [f32_below_2_4; 0; 0; 0]) f32_below_2_4
                 (storedAs_self _ isBinary32_below))))) _ _).
    + unfold f32_below_2_4, f32_middle_2_4. rewrite Rabs_pos_eq; lra.
    + apply upright_tip_height.
  - refine (proj1 (proj2 (proj2
              (isTerminal_stored_cart_boundary
                 (simWith 1 [f32_above_2_4; 0; 0; 0]) 2.4 _))) _).
    + apply stored_near_2_4. unfold f32_middle_2_4, f32_above_2_4. lra.
    + unfold f32_middle_2_4. rewrite Rabs_pos_eq; lra.
Defined.

(** C5 as stated fails.  No state holds the cart position 2.4: the number
    2.4, and the number that the literal [2.4] denotes, are stored as
    2.4000000953674316 and as nothing else, and the state with that cart
    position and an upright pole at rest, whose tip is clear of the
    ground line, is terminal. *)
Lemma stored_2_4_is_terminal :
  ~ isBinary32 2.4 /\
  storedAs 2.4 f32_above_2_4 /\
  (forall y, storedAs 2.4 y -> y = f32_above_2_4) /\
  storedAs lit64_2_4 f32_above_2_4 /\
  (forall tip,
     In tip (getPoleTipCoordinates (simWith 1 [f32_above_2_4; 0; 0; 0])) ->
     tip_y tip < groundY (simWith 1 [f32_above_2_4; 0; 0; 0]) - 10) /\
  isTerminal (simWith 1 [f32_above_2_4; 0; 0; 0]) = true.
Proof.
  assert (H24 : f32_middle_2_4 < 2.4 <= f32_above_2_4)
    by (unfold f32_middle_2_4, f32_above_2_4; lra).
  assert (Hlit : f32_middle_2_4 < lit64_2_4 <= f32_above_2_4)
    by (unfold f32_middle_2_4, lit64_2_4, f32_above_2_4; lra).
  split; [|split; [|split; [|split; [|split]]]].
  - intros Hb. apply (binary32_gap _ Hb). rewrite Rabs_pos_eq by lra.
    unfold f32_below_2_4, f32_above_2_4. lra.
  - apply (stored_near_2_4 2.4 H24).
  - apply (stored_near_2_4 2.4 H24).
  - apply (stored_near_2_4 lit64_2_4 Hlit).
  - apply upright_tip_height.
  - apply isTerminal_iff. left. cbn [simWith state ta_get nth].
    unfold xThreshold, f32_above_2_4. rewrite Rabs_pos_eq; lra.
Qed.

(** X1.  The state vector is a [Float32Array], so the cart position is
    always a binary32 value.  2.3999998569488525 and 2.4000000953674316
    are binary32 values with no binary32 value between them; the number
    that the literal [2.4] denotes lies between them and is stored as the
    upper one, and as nothing else.  On every binary32 value the cart
    test of the source, against the binary64 threshold, is the test
    against the real number 2.4: it is true exactly of the values of
    absolute value at least 2.4000000953674316 and false exactly of
    those of absolute value at most 2.3999998569488525, which is
    therefore the largest stored position that is within bounds.  The
    same constants, computed in the primitive floats, agree. *)
Theorem stored_cart_positions :
  isBinary32 f32_below_2_4 /\ isBinary32 f32_above_2_4 /\
  (forall x, isBinary32 x -> ~ (f32_below_2_4 < Rabs x < f32_above_2_4)) /\
  f32_below_2_4 < lit64_2_4 < f32_above_2_4 /\
  storedAs lit64_2_4 f32_above_2_4 /\
  (forall y, storedAs lit64_2_4 y -> y = f32_above_2_4) /\
  cartTest f32_above_2_4 = true /\
  cartTest f32_below_2_4 = false /\
  (forall x, isBinary32 x ->
     cartTest x = Rgtb (Rabs x) xThreshold /\
     (cartTest x = true <-> f32_above_2_4 <= Rabs x) /\
     (cartTest x = false <-> Rabs x <= f32_below_2_4)) /\
  Float32.toR Float32.lit_2_4 = lit64_2_4 /\
  Float32.toR Float32.below_2_4 = f32_below_2_4 /\
  Float32.toR Float32.above_2_4 = f32_above_2_4 /\
  Float32.fround Float32.lit_2_4 = Float32.above_2_4 /\
  Float32.cartOutOfBounds (Float32.fround Float32.lit_2_4) = true /\
  Float32.cartOutOfBounds Float32.below_2_4 = false.
Proof.
  assert (Hlit : f32_middle_2_4 < lit64_2_4 <= f32_above_2_4)
    by (unfold f32_middle_2_4, lit64_2_4, f32_above_2_4; lra).
  destruct float32_constants as (F1 & F2 & F3 & _ & F5 & F6 & _ & F8).
  split; [apply isBinary32_below|]. split; [apply isBinary32_above|].
  split; [exact binary32_gap|].
  split; [unfold f32_below_2_4, lit64_2_4, f32_above_2_4; lra|].
  split; [apply (stored_near_2_4 _ Hlit)|].
  split; [apply (stored_near_2_4 _ Hlit)|].
  split.
  { apply (cartTest_binary32 _ isBinary32_above).
    rewrite Rabs_pos_eq; unfold f32_above_2_4; lra. }
  split.
  { apply (cartTest_binary32 _ isBinary32_below).
    rewrite Rabs_pos_eq; unfold f32_below_2_4; lra. }
  split; [exact cartTest_binary32|].
  repeat split; assumption.
Qed.

(** ** The upright equilibrium *)

Lemma atRest_eq (x : R) (st : list R) : atRest x st -> st = [x; 0; 0; 0].
Proof.
  unfold atRest, ta_get. intros (Hl & H0 & H1 & H2 & H3).
  destruct st as [|a [|b [|c [|d [|e st]]]]]; simpl in *; try discriminate.
  now subst.
Qed.

Lemma atRest_vectorAdd_scaled (x c : R) (s k : list R) :
  atRest x s -> atRest 0 k -> atRest x (vectorAdd s (vectorScale k c)).
Proof.
  intros (Hl & H0 & H1 & H2 & H3) (Kl & K0 & K1 & K2 & K3). unfold atRest.
  rewrite vectorAdd_length.
  rewrite !ta_get_vectorAdd, !ta_get_vectorScale by lia.
  rewrite H0, H1, H2, H3, K0, K1, K2, K3. repeat split; try assumption; lra.
Qed.

Lemma atRest_vectorAdd (a b : list R) :
  atRest 0 a -> atRest 0 b -> atRest 0 (vectorAdd a b).
Proof.
  intros (Hl & H0 & H1 & H2 & H3) (Kl & K0 & K1 & K2 & K3). unfold atRest.
  rewrite vectorAdd_length.
  rewrite !ta_get_vectorAdd by lia.
  rewrite H0, H1, H2, H3, K0, K1, K2, K3. repeat split; try assumption; lra.
Qed.

Lemma atRest_vectorScale (a : list R) (c : R) :
  atRest 0 a -> atRest 0 (vectorScale a c).
Proof.
  intros (Hl & H0 & H1 & H2 & H3). unfold atRest.
  rewrite vectorScale_length, !ta_get_vectorScale.
  rewrite H0, H1, H2, H3. repeat split; try assumption; lra.
Qed.

(** At rest and without a force, every derivative is zero. *)
Lemma computeDerivatives_atRest (sim : VerticalChainSimulator) (x : R)
    (st : list R) :
  numPoles sim = 1%Z -> atRest x st ->
  atRest 0 (computeDerivatives sim st 0).
Proof.
  intros HN (Hl & H0 & H1 & H2 & H3).
  assert (HP : poleCount sim = 1%nat) by (unfold poleCount; now rewrite HN).
  destruct (computeDerivatives_entries sim st 0) as (Dl & D0 & D1 & Dp & _);
    [rewrite HP, Hl; simpl; lia|].
  rewrite HP in Dp. destruct (Dp 0%nat) as [D2 D3]; [lia|].
  cbn [Nat.mul Nat.add] in D2, D3.
  unfold atRest. rewrite Dl, D0, D1, D2, D3, H1, H2, H3, HN, sin_0, cos_0.
  unfold gravity, L, massCart, massPole. repeat split; try assumption; lra.
Qed.

Lemma rk4Step_atRest (sim : VerticalChainSimulator) (x : R) :
  numPoles sim = 1%Z -> atRest x (state sim) ->
  atRest x (state (rk4Step sim 0)).
Proof.
  intros HN Hs. unfold rk4Step. cbn [state set_state].
  pose proof (computeDerivatives_atRest sim x _ HN Hs) as K1.
  pose proof (atRest_vectorAdd_scaled x (dt / 2) _ _ Hs K1) as S2.
  pose proof (computeDerivatives_atRest sim x _ HN S2) as K2.
  pose proof (atRest_vectorAdd_scaled x (dt / 2) _ _ Hs K2) as S3.
  pose proof (computeDerivatives_atRest sim x _ HN S3) as K3.
  pose proof (atRest_vectorAdd_scaled x dt _ _ Hs K3) as S4.
  pose proof (computeDerivatives_atRest sim x _ HN S4) as K4.
  apply atRest_vectorAdd_scaled; [assumption|].
  unfold vectorAddMultiple. cbn [fold_left].
  repeat apply atRest_vectorAdd; try assumption;
    apply atRest_vectorScale; assumption.
Qed.

Lemma run_atRest (x : R) (k : nat) :
  forall sim, numPoles sim = 1%Z -> atRest x (state sim) ->
    atRest x (state (run 0 k sim)).
Proof.
  induction k as [|k IH]; intros sim HN Hs; [exact Hs|].
  rewrite run_S. apply IH.
  - exact HN.
  - rewrite updateTrails_state. now apply rk4Step_atRest.
Qed.

(** X2.  Equilibrium: with one pole, no force, the pole upright ([theta =
    0]) with zero angular velocity and the cart at rest at any position
    [x], the state vector is the same after any number of RK4 steps. *)
Theorem upright_equilibrium (x : R) (k : nat) :
  state (run 0 k (simWith 1 [x; 0; 0; 0])) = [x; 0; 0; 0] /\
  state (rk4Step (simWith 1 [x; 0; 0; 0]) 0) = [x; 0; 0; 0].
Proof.
  assert (H : atRest x (state (simWith 1 [x; 0; 0; 0]))).
  { unfold atRest. cbn [simWith state ta_get nth length]. repeat split. }
  split; apply atRest_eq.
  - apply run_atRest; [reflexivity | exact H].
  - apply rk4Step_atRest; [reflexivity | exact H].
Qed.

(** ** The length of the state vector *)

Lemma rk4Step_shape (sim : VerticalChainSimulator) (force : R) :
  length (state (rk4Step sim force)) = length (state sim) /\
  numPoles (rk4Step sim force) = numPoles sim.
Proof.
  unfold rk4Step. cbn [state numPoles set_state].
  split; [apply vectorAdd_length | reflexivity].
Qed.

Lemma run_shape (force : R) (k : nat) :
  forall sim,
    length (state (run force k sim)) = length (state sim) /\
    numPoles (run force k sim) = numPoles sim.
Proof.
  induction k as [|k IH]; intros sim; [split; reflexivity|].
  rewrite run_S.
  destruct (IH (updateTrails (rk4Step sim force))) as [Hl Hn].
  destruct (rk4Step_shape sim force) as [Hl' Hn'].
  rewrite Hl, Hn, updateTrails_state. split; [exact Hl'|exact Hn'].
Qed.

(** X3.  The length of the state vector and the number of poles never
    change after construction: neither [update] (any force, any elapsed
    time) nor [reset] changes them. *)
Theorem state_length_invariant (sim : VerticalChainSimulator)
    (force elapsedTime : R) (g : Rng) :
  length (state (update sim force elapsedTime)) = length (state sim) /\
  numPoles (update sim force elapsedTime) = numPoles sim /\
  length (state (fst (reset sim g))) = length (state sim) /\
  numPoles (fst (reset sim g)) = numPoles sim.
Proof.
  unfold update, update_counted.
  destruct (update_loop_spec (floor_steps (elapsedTime / (dt * 1000)))
              force sim 0) as (k & E & _).
  rewrite E. cbn [fst].
  destruct (run_shape force k sim) as [Hl Hn].
  destruct (reset_fields sim g) as [Rl Rn].
  repeat split; assumption.
Qed.

(** ** The motion of the cart over several steps *)

Lemma step_poleCount (sim : VerticalChainSimulator) (force : R) :
  poleCount (updateTrails (rk4Step sim force)) = poleCount sim.
Proof. reflexivity. Qed.

(** X4.  On a state vector that holds all the poles, [k] RK4 steps under
    a constant force move the cart exactly as a body of the total mass
    under that force: after the time [t = k * dt] its velocity is
    [v + t * a] and its position [x + t * v + t^2 / 2 * a], with
    [a = force / (massCart + numPoles * massPole)], whatever the poles
    do. *)
Theorem cart_motion_after_steps (sim : VerticalChainSimulator) (force : R)
    (k : nat) :
  (2 + 2 * poleCount sim <= length (state sim))%nat ->
  let a := force / (massCart + IZR (numPoles sim) * massPole) in
  let x := ta_get (state sim) 0 in
  let v := ta_get (state sim) 1 in
  let t := INR k * dt in
  ta_get (state (run force k sim)) 0 = x + t * v + t * t / 2 * a /\
  ta_get (state (run force k sim)) 1 = v + t * a.
Proof.
  revert sim. induction k as [|k IH]; intros sim Hlen; cbn zeta.
  - change (run force 0 sim) with sim. cbn [INR]. split; lra.
  - rewrite run_S.
    destruct (rk4Step_cart sim force Hlen) as (Hl & Hx & Hv).
    destruct (rk4Step_shape sim force) as [_ Hn].
    specialize (IH (updateTrails (rk4Step sim force))).
    cbn zeta in IH. rewrite step_poleCount, updateTrails_state in IH.
    destruct IH as [IHx IHv]; [rewrite Hl; exact Hlen|].
    rewrite IHx, IHv.
    change (numPoles (updateTrails (rk4Step sim force)))
      with (numPoles (rk4Step sim force)).
    rewrite Hn, Hx, Hv, S_INR.
    set (a := force / _). split; lra.
Qed.

Lemma cart_motion_after_steps_witness :
  ta_get (state (run 1 3 (simWith 1 [0; 0; 0; 0]))) 1
  = 0 + INR 3 * dt * (1 / (massCart + IZR 1 * massPole)).
Proof.
  refine (proj2 (cart_motion_after_steps (simWith 1 [0; 0; 0; 0]) 1 3 _)).
  simpl. lia.
Defined.

(** ** The chain of the tips *)

(** The loop of [getPoleTipCoordinates] after [n] turns: the base is the
    last tip (the top of the cart before the first turn) and every tip is
    one link away from the one before. *)
Lemma tips_loop_links (sim : VerticalChainSimulator) (cartX : R) (n : nat) :
  let r :=
    for_loop n
      (fun '(baseX, baseY, tips) i =>
         let theta := ta_get (state sim) (2 + 2 * i) in
         let linkLengthPx := L * scale in
         let endX := baseX + linkLengthPx * sin theta in
         let endY := baseY - linkLengthPx * cos theta in
         (endX, endY, tips ++ [{| tip_x := endX; tip_y := endY |}]))
      (cartX, groundY sim - cartHeight, []) in
  let before i :=
    match i with
    | O => {| tip_x := cartX; tip_y := groundY sim - cartHeight |}
    | S j => nth j (snd r) noTip
    end in
  length (snd r) = n /\
  fst (fst r) = tip_x (before n) /\ snd (fst r) = tip_y (before n) /\
  (forall i, (i < n)%nat ->
     tip_x (nth i (snd r) noTip)
     = tip_x (before i) + L * scale * sin (ta_get (state sim) (2 + 2 * i)) /\
     tip_y (nth i (snd r) noTip)
     = tip_y (before i) - L * scale * cos (ta_get (state sim) (2 + 2 * i))).
Proof.
  induction n as [|n IH]; cbn zeta in *.
  - rewrite for_loop_0. simpl. repeat split; intros; lia.
  - rewrite for_loop_S.
    destruct (for_loop n _ _) as [[bX bY] tips]. simpl in IH |- *.
    destruct IH as (Hl & HbX & HbY & Ht).
    split; [rewrite length_app; simpl; lia|].
    split; [rewrite app_nth2, Hl, Nat.sub_diag by lia; reflexivity|].
    split; [rewrite app_nth2, Hl, Nat.sub_diag by lia; reflexivity|].
    intros i Hi. destruct (Nat.eq_dec i n) as [->|Hne].
    + rewrite app_nth2, Hl, Nat.sub_diag by lia. simpl.
      rewrite HbX, HbY. destruct n as [|m]; [split; reflexivity|].
      rewrite app_nth1 by lia. split; reflexivity.
    + rewrite app_nth1 by lia. destruct (Ht i) as [Ex Ey]; [lia|].
      rewrite Ex, Ey. destruct i as [|j]; [split; reflexivity|].
      rewrite app_nth1 by lia. split; reflexivity.
Qed.

(** X5.  On a state vector of length [2 + 2N], [getPoleTipCoordinates]
    returns one tip per pole; the first tip is one link ([L * scale = 100]
    pixels) away from the top centre of the cart in the direction of the
    first angle, and every further tip is one link away from the tip
    before it in the direction of its own angle: two consecutive tips are
    exactly 100 pixels apart. *)
Theorem tips_form_a_chain (sim : VerticalChainSimulator) :
  length (state sim) = (2 + 2 * poleCount sim)%nat ->
  let tips := getPoleTipCoordinates sim in
  let cartX := width (canvas sim) / 2 + ta_get (state sim) 0 * scale in
  let theta i := ta_get (state sim) (2 + 2 * i) in
  length tips = poleCount sim /\
  L * scale = 100 /\
  ((0 < poleCount sim)%nat ->
   tip_x (nth 0 tips noTip) = cartX + 100 * sin (theta 0%nat) /\
   tip_y (nth 0 tips noTip)
   = groundY sim - cartHeight - 100 * cos (theta 0%nat)) /\
  (forall i, (S i < poleCount sim)%nat ->
     let p := nth i tips noTip in
     let q := nth (S i) tips noTip in
     tip_x q = tip_x p + 100 * sin (theta (S i)) /\
     tip_y q = tip_y p - 100 * cos (theta (S i)) /\
     (tip_x q - tip_x p) * (tip_x q - tip_x p)
     + (tip_y q - tip_y p) * (tip_y q - tip_y p) = 100 * 100).
Proof.
  intros _. cbn zeta. unfold getPoleTipCoordinates.
  pose proof (tips_loop_links sim
    (width (canvas sim) / 2 + ta_get (state sim) 0 * scale) (poleCount sim))
    as H.
  cbn zeta in H.
  destruct (for_loop (poleCount sim) _ _) as [[bX bY] tips].
  simpl in H. destruct H as (Hl & _ & _ & Ht).
  assert (HL : L * scale = 100) by (unfold L, scale; lra).
  rewrite HL in Ht.
  split; [exact Hl|]. split; [exact HL|]. split.
  - intros HN. destruct (Ht 0%nat HN) as [Ex Ey]. simpl in Ex, Ey.
    split; assumption.
  - intros i Hi. destruct (Ht (S i) Hi) as [Ex Ey]. cbn iota in Ex, Ey.
    split; [exact Ex|]. split; [exact Ey|].
    rewrite Ex, Ey.
    pose proof (sin2_cos2 (ta_get (state sim) (2 + 2 * S i))) as Hsc.
    unfold Rsqr in Hsc.
    set (sn := sin _) in *. set (cs := cos _) in *. nra.
Qed.

Lemma tips_form_a_chain_witness :
  length (getPoleTipCoordinates (simWith 2 [0; 0; 0; 0; 0; 0])) = 2%nat.
Proof.
  exact (proj1 (tips_form_a_chain (simWith 2 [0; 0; 0; 0; 0; 0]) eq_refl)).
Defined.

(** ** The trails *)

Lemma list_set_length {A : Type} (l : list A) (i : nat) (v : A) :
  length (list_set l i v) = length l.
Proof. revert i; induction l as [|x l IH]; intros [|i]; simpl; auto. Qed.

Lemma list_set_nth_eq {A : Type} (l : list A) (i : nat) (v d : A) :
  (i < length l)%nat -> nth i (list_set l i v) d = v.
Proof.
  revert i; induction l as [|x l IH]; intros [|i] H; simpl in *;
    try lia; auto. apply IH; lia.
Qed.

Lemma list_set_nth_neq {A : Type} (l : list A) (i j : nat) (v d : A) :
  i <> j -> nth j (list_set l i v) d = nth j l d.
Proof.
  revert i j; induction l as [|x l IH]; intros [|i] [|j] H; simpl;
    try reflexivity; try lia. apply IH; lia.
Qed.

Lemma initializeTrails_trails (sim : VerticalChainSimulator) :
  trails (initializeTrails sim) = repeat [] (poleCount sim).
Proof.
  unfold initializeTrails. cbn [trails set_trails].
  induction (poleCount sim) as [|n IH]; [reflexivity|].
  rewrite for_loop_S, IH. clear.
  induction n as [|n IH]; [reflexivity|]. simpl. now rewrite IH.
Qed.

(** The loop of [updateTrails] after [n] turns, when no maximal length is
    set: the first [n] trails have their tip appended. *)
Lemma updateTrails_loop (sim : VerticalChainSimulator) (tips : list Tip)
    (tr : list (list Tip)) (n : nat) :
  maxTrailLength sim = None -> (n <= length tr)%nat ->
  let r :=
    for_loop n
      (fun tr i =>
         let pushed := nth i tr [] ++ [nth i tips noTip] in
         let kept := if overMaxTrailLength sim (length pushed)
                     then tl pushed else pushed in
         list_set tr i kept)
      tr in
  length r = length tr /\
  (forall i, (i < n)%nat -> nth i r [] = nth i tr [] ++ [nth i tips noTip]) /\
  (forall i, (n <= i)%nat -> nth i r [] = nth i tr []).
Proof.
  intros Hmax. unfold overMaxTrailLength. rewrite Hmax.
  induction n as [|n IH]; intros Hn; cbn zeta in *.
  - rewrite for_loop_0. repeat split; auto. intros; lia.
  - rewrite for_loop_S. destruct IH as (Hl & Hlow & Hhigh); [lia|].
    set (r := for_loop n _ tr) in *.
    split; [now rewrite list_set_length|]. split.
    + intros i Hi. destruct (Nat.eq_dec i n) as [->|Hne].
      * rewrite list_set_nth_eq by lia. now rewrite Hhigh by lia.
      * rewrite list_set_nth_neq by lia. apply Hlow. lia.
    + intros i Hi. rewrite list_set_nth_neq by lia. apply Hhigh. lia.
Qed.

Lemma updateTrails_trails (sim : VerticalChainSimulator) :
  maxTrailLength sim = None -> length (trails sim) = poleCount sim ->
  length (trails (updateTrails sim)) = poleCount sim /\
  (forall i, (i < poleCount sim)%nat ->
     nth i (trails (updateTrails sim)) []
     = nth i (trails sim) [] ++ [nth i (getPoleTipCoordinates sim) noTip]).
Proof.
  intros Hmax Hlen. unfold updateTrails. cbn [trails set_trails].
  destruct (updateTrails_loop sim (getPoleTipCoordinates sim) (trails sim)
              (poleCount sim) Hmax) as (Hl & Hlow & _); [lia|].
  split; [exact (eq_trans Hl Hlen) | exact Hlow].
Qed.

Lemma run_trails (force : R) (k : nat) :
  forall sim,
    maxTrailLength sim = None -> length (trails sim) = poleCount sim ->
    maxTrailLength (run force k sim) = None /\
    length (trails (run force k sim)) = poleCount sim /\
    (forall i, (i < poleCount sim)%nat ->
       length (nth i (trails (run force k sim)) [])
       = (length (nth i (trails sim) []) + k)%nat).
Proof.
  induction k as [|k IH]; intros sim Hmax Hlen.
  - change (run force 0 sim) with sim.
    split; [exact Hmax|]. split; [exact Hlen|]. intros; lia.
  - rewrite run_S.
    destruct (updateTrails_trails (rk4Step sim force) Hmax Hlen)
      as [Hl1 Hpush].
    destruct (IH (updateTrails (rk4Step sim force)) Hmax Hl1)
      as (Hm & Hl & Hgrow).
    split; [exact Hm|]. split; [exact Hl|].
    intros i Hi. rewrite (Hgrow i Hi), (Hpush i Hi), length_app.
    cbn [length trails rk4Step set_state]. lia.
Qed.

Lemma constructor_fields (cv : Canvas) (n : Z) (g : Rng)
    (sim : VerticalChainSimulator) (g' : Rng) :
  constructor cv n g = Built sim g' ->
  canvas sim = cv /\ numPoles sim = n /\ maxTrailLength sim = None /\
  trails sim = repeat [] (Z.to_nat n) /\
  (0 <= 2 + 2 * n)%Z /\
  (sim, g')
  = (let '(s, h) :=
       reset {| canvas := cv; numPoles := n;
                state := ta_new (Z.to_nat (2 + 2 * n));
                trails := []; maxTrailLength := None |} g in
     (initializeTrails s, h)).
Proof.
  unfold constructor. destruct (Z.ltb_spec (2 + 2 * n) 0) as [|Hn];
    [discriminate|].
  set (sim0 := {| canvas := cv; numPoles := n;
                  state := ta_new (Z.to_nat (2 + 2 * n));
                  trails := []; maxTrailLength := None |}).
  unfold reset. destruct (for_loop (poleCount sim0) _ _) as [s h].
  intros E. inversion E; subst; clear E.
  repeat split; try reflexivity; try assumption.
  apply initializeTrails_trails.
Qed.

(** X6.  Nothing ever shortens a trail: [maxTrailLength] is assigned
    nowhere, so the test that would drop the oldest point is never true.
    On a simulator built by the constructor every step of [update] appends
    one point to the trail of each pole: after [k] steps each of the
    [numPoles] trails holds exactly [k] points, and after a call of
    [update] as many as the steps it performed. *)
Theorem trails_grow_with_every_step (cv : Canvas) (n : Z) (g g' : Rng)
    (sim : VerticalChainSimulator) (force : R) :
  constructor cv n g = Built sim g' ->
  (forall k,
     length (trails (run force k sim)) = Z.to_nat n /\
     forall i, (i < Z.to_nat n)%nat ->
       length (nth i (trails (run force k sim)) []) = k) /\
  (forall elapsedTime i, (i < Z.to_nat n)%nat ->
     length (nth i (trails (update sim force elapsedTime)) [])
     = stepsPerformed sim force elapsedTime).
Proof.
  intros Hc.
  destruct (constructor_fields cv n g sim g' Hc) as (_ & Hn & Hmax & Htr & _).
  assert (HP : poleCount sim = Z.to_nat n) by (unfold poleCount; now rewrite Hn).
  assert (Hlen : length (trails sim) = poleCount sim).
  { now rewrite Htr, repeat_length. }
  assert (Hk : forall k,
             length (trails (run force k sim)) = Z.to_nat n /\
             forall i, (i < Z.to_nat n)%nat ->
               length (nth i (trails (run force k sim)) []) = k).
  { intros k. destruct (run_trails force k sim Hmax Hlen) as (_ & Hl & Hgrow).
    rewrite HP in *. split; [exact Hl|].
    intros i Hi. rewrite (Hgrow i Hi), Htr.
    replace (nth i (repeat [] (Z.to_nat n)) []) with (@nil Tip).
    - reflexivity.
    - symmetry. apply nth_repeat. }
  split; [exact Hk|].
  intros elapsedTime i Hi. unfold update, stepsPerformed, update_counted.
  destruct (update_loop_spec (floor_steps (elapsedTime / (dt * 1000)))
              force sim 0) as (k & E & _).
  rewrite E. cbn [fst snd Nat.add]. apply Hk. exact Hi.
Qed.

Lemma trails_grow_with_every_step_witness :
  exists sim g',
    constructor canvas800x600 2 rngHalf = Built sim g' /\
    length (trails (run 0 5 sim)) = 2%nat.
Proof.
  destruct (constructor canvas800x600 2 rngHalf) as [sim g'|] eqn:E.
  - exists sim, g'. split; [reflexivity|].
    exact (proj1 (proj1 (trails_grow_with_every_step canvas800x600 2 rngHalf
                           g' sim 0 E) 5%nat)).
  - discriminate E.
Defined.

(** ** The state after a reset *)

(** The loop of [reset] after [n] turns: two samples per pole, stored as
    its angle and its angular velocity. *)
Lemma reset_loop_inv (n : nat) (s0 : list R) (g : Rng) :
  (2 + 2 * n <= length s0)%nat ->
  let r :=
    for_loop n
      (fun '(s, g) i =>
         let '(r1, g1) := random g in
         let s1 := ta_set s (2 + 2 * i) ((r1 - 0.5) * 0.05) in
         let '(r2, g2) := random g1 in
         (ta_set s1 (3 + 2 * i) ((r2 - 0.5) * 0.05), g2))
      (s0, g) in
  samples (snd r) = samples g /\
  cursor (snd r) = (cursor g + 2 * n)%nat /\
  (forall i, (i < n)%nat ->
     ta_get (fst r) (2 + 2 * i)
     = (samples g (cursor g + 2 * i) - 0.5) * 0.05 /\
     ta_get (fst r) (3 + 2 * i)
     = (samples g (cursor g + 2 * i + 1) - 0.5) * 0.05) /\
  (forall j, (j < 2 \/ 2 + 2 * n <= j)%nat -> ta_get (fst r) j = ta_get s0 j).
Proof.
  induction n as [|n IH]; intros Hn; cbn zeta in *.
  - rewrite for_loop_0. simpl. repeat split; auto; intros; lia.
  - rewrite for_loop_S.
    pose proof (reset_loop_length n s0 g) as Hl.
    destruct IH as (Hs & Hc & Hp & Hrest); [lia|].
    destruct (for_loop n _ _) as [s h]. cbn [fst snd] in *.
    unfold random. cbn [fst snd samples cursor].
    split; [exact Hs|]. split; [lia|]. split.
    + intros i Hi. destruct (Nat.eq_dec i n) as [->|Hne].
      * rewrite ta_get_set_neq by lia.
        rewrite ta_get_set_eq by lia.
        rewrite ta_get_set_eq by (rewrite ta_set_length; lia).
        rewrite Hs, Hc. split; do 3 f_equal; lia.
      * rewrite !ta_get_set_neq by lia. apply Hp. lia.
    + intros j Hj. rewrite !ta_get_set_neq by lia. apply Hrest. lia.
Qed.

Lemma reset_entries (sim : VerticalChainSimulator) (g : Rng) :
  length (state sim) = (2 + 2 * poleCount sim)%nat ->
  let sim' := fst (reset sim g) in
  let g' := snd (reset sim g) in
  ta_get (state sim') 0 = 0 /\ ta_get (state sim') 1 = 0 /\
  (forall i, (i < poleCount sim)%nat ->
     ta_get (state sim') (2 + 2 * i)
     = (samples g (cursor g + 2 * i) - 0.5) * 0.05 /\
     ta_get (state sim') (3 + 2 * i)
     = (samples g (cursor g + 2 * i + 1) - 0.5) * 0.05) /\
  samples g' = samples g /\
  cursor g' = (cursor g + 2 * poleCount sim)%nat /\
  trails sim' = repeat [] (poleCount sim).
Proof.
  intros Hlen. cbn zeta. unfold reset.
  pose proof (reset_loop_inv (poleCount sim)
                (ta_set (ta_set (state sim) 0 0) 1 0) g) as H.
  cbn zeta in H. rewrite !ta_set_length in H.
  destruct H as (Hs & Hc & Hp & Hrest); [lia|].
  destruct (for_loop (poleCount sim) _ _) as [s h]. cbn [fst snd] in *.
  rewrite initializeTrails_trails.
  cbn [initializeTrails set_trails set_state state].
  repeat split; try assumption; try (apply Hp; assumption).
  - rewrite Hrest by lia. rewrite ta_get_set_neq by lia.
    apply ta_get_set_eq. lia.
  - rewrite Hrest by lia. apply ta_get_set_eq. rewrite ta_set_length. lia.
Qed.

Lemma partialCosSum_nonneg (st : list R) (n : nat) :
  (forall i, (i < n)%nat -> -0.025 <= ta_get st (2 + 2 * i) < 0.025) ->
  forall i, (i <= n)%nat -> 0 <= partialCosSum st i.
Proof.
  intros Hth. induction i as [|i IH]; intros Hi; simpl; [lra|].
  assert (0 < cos (ta_get st (2 + 2 * i))).
  { pose proof PI2_1. destruct (Hth i) as [Hlo Hhi]; [lia|].
    apply cos_gt_0; lra. }
  specialize (IH ltac:(lia)). simpl in *. lra.
Qed.

(** X7.  [reset] on a state vector of length [2 + 2N], with samples of
    [Math.random] in [0, 1): the cart is at position 0 with velocity 0;
    pole [i] gets the angle [(r - 0.5) * 0.05] and the angular velocity
    [(r' - 0.5) * 0.05] from the next two samples [r], [r'], so every
    pole entry lies in [-0.025, 0.025); exactly [2N] samples are used; the
    trails are [N] empty ones; and the simulator is not terminal. *)
Theorem reset_gives_near_upright_state (sim : VerticalChainSimulator)
    (g : Rng) :
  length (state sim) = (2 + 2 * poleCount sim)%nat ->
  (forall i, 0 <= samples g i < 1) ->
  let sim' := fst (reset sim g) in
  let g' := snd (reset sim g) in
  ta_get (state sim') 0 = 0 /\ ta_get (state sim') 1 = 0 /\
  (forall i, (i < poleCount sim)%nat ->
     ta_get (state sim') (2 + 2 * i)
     = (samples g (cursor g + 2 * i) - 0.5) * 0.05 /\
     ta_get (state sim') (3 + 2 * i)
     = (samples g (cursor g + 2 * i + 1) - 0.5) * 0.05) /\
  (forall j, (2 <= j < 2 + 2 * poleCount sim)%nat ->
     -0.025 <= ta_get (state sim') j < 0.025) /\
  cursor g' = (cursor g + 2 * poleCount sim)%nat /\
  trails sim' = repeat [] (poleCount sim) /\
  isTerminal sim' = false.
Proof.
  intros Hlen Hs. cbn zeta.
  destruct (reset_entries sim g Hlen) as (H0 & H1 & Hp & _ & Hc & Htr).
  cbn zeta in *.
  assert (Hrange : forall j, (2 <= j < 2 + 2 * poleCount sim)%nat ->
            -0.025 <= ta_get (state (fst (reset sim g))) j < 0.025).
  { intros j Hj.
    destruct (Nat.Even_or_Odd (j - 2)) as [[m Hm]|[m Hm]].
    - replace j with (2 + 2 * m)%nat by lia.
      destruct (Hp m) as [E _]; [lia|]. rewrite E.
      pose proof (Hs (cursor g + 2 * m)%nat). lra.
    - replace j with (3 + 2 * m)%nat by lia.
      destruct (Hp m) as [_ E]; [lia|]. rewrite E.
      pose proof (Hs (cursor g + 2 * m + 1)%nat). lra. }
  repeat split; try assumption; try (apply Hp; assumption);
    try (apply Hrange; assumption).
  apply not_true_is_false. rewrite isTerminal_iff, tip_check_cosines.
  rewrite H0, Rabs_R0. unfold xThreshold.
  intros [Hx|(i & Hi & Hcos)]; [lra|].
  assert (HP : poleCount (fst (reset sim g)) = poleCount sim).
  { unfold poleCount. now rewrite (proj2 (reset_fields sim g)). }
  rewrite HP in Hi.
  assert (0 <= partialCosSum (state (fst (reset sim g))) i).
  { apply (partialCosSum_nonneg _ (poleCount sim)); [|lia].
    intros m Hm. apply Hrange. lia. }
  lra.
Qed.

Lemma reset_gives_near_upright_state_witness :
  isTerminal (fst (reset (simWith 1 [1; 2; 3; 4]) rngHalf)) = false.
Proof.
  refine (proj2 (proj2 (proj2 (proj2 (proj2 (proj2
    (reset_gives_near_upright_state (simWith 1 [1; 2; 3; 4]) rngHalf
       eq_refl _))))))).
  intros i. cbn [rngHalf samples]. lra.
Defined.

(** ** More on the advantages *)

(** X8.  A done flag cuts the recursion of [computeGAE]: at a step [t]
    whose flag is set, and at the last step whatever its flag is, the
    advantage is [rewards[t] - values[t]] and the return is [rewards[t]];
    nothing that comes after such a step enters them. *)
Theorem computeGAE_cut_at_done (rewards values : list R) (dones : list Z)
    (t : nat) :
  length values = length rewards -> length dones = length rewards ->
  (t < length rewards)%nat ->
  truthy (nth t dones 0%Z) = true \/ t = (length rewards - 1)%nat ->
  ta_get (advantages (computeGAE rewards values dones)) t
  = ta_get rewards t - ta_get values t /\
  ta_get (returns (computeGAE rewards values dones)) t = ta_get rewards t.
Proof.
  intros _ _ Ht Hcut.
  destruct (computeGAE_advantages rewards values dones) as [_ Ha].
  destruct (computeGAE_returns rewards values dones) as [_ Hr].
  assert (E : ta_get (advantages (computeGAE rewards values dones)) t
              = ta_get rewards t - ta_get values t).
  { rewrite (Ha t Ht). unfold specAdvantage.
    rewrite specAdvantageLeft_step by exact Ht. unfold ta_get.
    destruct Hcut as [Hd| ->].
    - rewrite Hd. lra.
    - rewrite Nat.eqb_refl.
      replace (length rewards - S (length rewards - 1))%nat with 0%nat by lia.
      cbn [specAdvantageLeft]. lra. }
  split; [exact E|]. rewrite (Hr t Ht), E. lra.
Qed.

Lemma computeGAE_cut_at_done_witness :
  ta_get (advantages (computeGAE [1; 1; 1] [0.5; 0.25; 2] [0; 1; 0]%Z)) 1
  = ta_get [1; 1; 1] 1 - ta_get [0.5; 0.25; 2] 1.
Proof.
  refine (proj1 (computeGAE_cut_at_done [1; 1; 1] [0.5; 0.25; 2]
                   [0; 1; 0]%Z 1 eq_refl eq_refl _ _)).
  - simpl. lia.
  - left. reflexivity.
Defined.

Lemma sumR_scale (c : R) (l : list R) :
  sumR (map (fun x => c * x) l) = c * sumR l.
Proof. induction l as [|x l IH]; simpl; [lra|]. rewrite IH. lra. Qed.

Lemma discountedResiduals_S (rewards values : list R) (T t m : nat) :
  discountedResiduals rewards values T t (S m)
  = tdResidual rewards values T t
    + gamma * lam * discountedResiduals rewards values T (S t) m.
Proof.
  unfold discountedResiduals. cbn [seq map].
  rewrite <- seq_shift, map_map, <- sumR_scale, map_map.
  change (sumR (?a :: ?l)) with (a + sumR l).
  rewrite Nat.add_0_r. cbn [pow]. f_equal; [lra|].
  f_equal. apply map_ext. intros j. cbn [pow].
  replace (t + S j)%nat with (S t + j)%nat by lia. lra.
Qed.

Lemma specAdvantageLeft_sum (rewards values : list R) (dones : list Z)
    (T m : nat) :
  (forall j, (j < T - 1)%nat -> truthy (nth j dones 0%Z) = false) ->
  (m <= T)%nat ->
  specAdvantageLeft rewards values dones T m
  = discountedResiduals rewards values T (T - m) m.
Proof.
  intros Hd. induction m as [|m IH]; intros Hm; [reflexivity|].
  rewrite discountedResiduals_S.
  replace (S (T - S m)) with (T - m)%nat by lia.
  rewrite <- IH by lia. cbn [specAdvantageLeft]. unfold tdResidual.
  destruct (Nat.eqb_spec (T - S m) (T - 1)) as [E|E].
  - assert (m = 0%nat) as -> by lia. cbn [specAdvantageLeft]. lra.
  - rewrite Hd by lia. lra.
Qed.

(** X9.  For an episode of length [T] with no done flag before its last
    step (as the tick produces them), the advantage that [computeGAE]
    returns at [t] is the discounted sum of the temporal-difference
    residuals from [t] on: the sum over [j < T - t] of
    [(gamma * lam)^j * delta(t + j)], where
    [delta(s) = rewards[s] + gamma * values[s+1] - values[s]] and
    [values[T]] counts as 0. *)
Theorem computeGAE_discounted_residuals (rewards values : list R)
    (dones : list Z) (t : nat) :
  length values = length rewards -> length dones = length rewards ->
  (forall j, (j < length rewards - 1)%nat ->
     truthy (nth j dones 0%Z) = false) ->
  (t < length rewards)%nat ->
  ta_get (advantages (computeGAE rewards values dones)) t
  = discountedResiduals rewards values (length rewards) t
      (length rewards - t).
Proof.
  intros _ _ Hd Ht.
  destruct (computeGAE_advantages rewards values dones) as [_ Ha].
  rewrite (Ha t Ht). unfold specAdvantage.
  rewrite specAdvantageLeft_sum by (assumption || lia).
  f_equal. lia.
Qed.

Lemma computeGAE_discounted_residuals_witness :
  ta_get (advantages (computeGAE [1; 1; 1] [0.5; 0.25; 2] [0; 0; 1]%Z)) 0
  = discountedResiduals [1; 1; 1] [0.5; 0.25; 2] 3 0 3.
Proof.
  refine (computeGAE_discounted_residuals [1; 1; 1] [0.5; 0.25; 2]
            [0; 0; 1]%Z 0 eq_refl eq_refl _ _).
  - intros j Hj. simpl in Hj.
    destruct j as [|[|j]]; [reflexivity | reflexivity | lia].
  - simpl. lia.
Defined.

(** ** How a run of the update ends *)

Section UpdateFailure.

Variable Gen : Type.
Variable createShuffledIndices : Gen -> nat -> list nat * Gen.
Variable tensor1d : list nat -> Outcome.
Variable actorMinimize : PPOAgent -> Dataset -> Outcome * PPOAgent.
Variable criticMinimize : PPOAgent -> Dataset -> Outcome * PPOAgent.

Lemma epoch_loop_empty (data : Dataset) (indices : list nat) (bs : nat) :
  forall todo epoch ag log,
    epoch_loop tensor1d actorMinimize criticMinimize data indices 0 bs
      todo epoch ag log
    = Some (Returned, ag, log).
Proof.
  induction todo as [|todo IH]; intros epoch ag log; [reflexivity|].
  cbn [epoch_loop batch_loop Nat.leb]. apply IH.
Qed.

(** With [batchSize = 0] the offset of the inner loop never moves: the
    loop does not return, and without a throw it does not end. *)
Lemma batch_loop_never_returns (data : Dataset) (indices : list nat)
    (n epoch : nat) :
  forall fuel i ag log c ag' log', (i < n)%nat ->
    batch_loop tensor1d actorMinimize criticMinimize data indices n 0 epoch
      fuel i ag log = Some (c, ag', log') ->
    c = Threw.
Proof.
  induction fuel as [|fuel IH]; intros i ag log c ag' log' Hi;
    cbn [batch_loop]; destruct (Nat.leb_spec n i) as [|_]; try lia;
    [discriminate|].
  destruct (tensor1d _); [|intros [= <- _ _]; reflexivity].
  destruct (actorMinimize ag _) as [[|] ag1];
    [|intros [= <- _ _]; reflexivity].
  destruct (criticMinimize ag1 _) as [[|] ag2];
    [|intros [= <- _ _]; reflexivity].
  rewrite Nat.add_0_r. apply IH. exact Hi.
Qed.

Lemma batch_loop_stuck (data : Dataset) (indices : list nat) (n epoch : nat) :
  (forall values, tensor1d values = Returned) ->
  (forall a batch, fst (actorMinimize a batch) = Returned) ->
  (forall a batch, fst (criticMinimize a batch) = Returned) ->
  forall fuel i ag log, (i < n)%nat ->
    batch_loop tensor1d actorMinimize criticMinimize data indices n 0 epoch
      fuel i ag log = None.
Proof.
  intros Ht Ha Hc.
  induction fuel as [|fuel IH]; intros i ag log Hi; cbn [batch_loop];
    destruct (Nat.leb_spec n i) as [|_]; try lia; [reflexivity|].
  rewrite Ht.
  pose proof (Ha ag (gatherBatch data (slice indices i (i + 0)))) as Ea.
  destruct (actorMinimize ag _) as [ca ag1]. cbn [fst] in Ea. subst ca.
  pose proof (Hc ag1 (gatherBatch data (slice indices i (i + 0)))) as Ec.
  destruct (criticMinimize ag1 _) as [cc ag2]. cbn [fst] in Ec. subst cc.
  rewrite Nat.add_0_r. apply IH. exact Hi.
Qed.

(** X10.  [update] has no error handling, so the first call that throws
    ends it, with a rejected promise.  On an empty dataset or with no
    epoch it returns at once, with the parameters as they were and no
    minibatch drawn.  Otherwise, for every [batchSize] (0 as well), the
    first slice of the permutation is drawn, and when [tf.tensor1d]
    throws on it [update] is rejected with the parameters as they were:
    no optimizer step has been taken; when the actor's step on that
    minibatch throws, or the critic's after it, [update] is rejected with
    the parameters as that step left them.  In each case
    [createShuffledIndices] has been called once and only the first
    slice has been drawn. *)
Theorem update_rejects_at_the_first_throw (g : Gen) (ag : PPOAgent)
    (data : Dataset) (epochs batchSize : nat) :
  let n := length (d_observations data) in
  let indices := fst (createShuffledIndices g n) in
  let g' := snd (createShuffledIndices g n) in
  let batchIndices := slice indices 0 batchSize in
  let batch := gatherBatch data batchIndices in
  let first := [{| v_epoch := 0; v_offset := 0; v_indices := batchIndices |}] in
  let run := ppo_update Gen createShuffledIndices tensor1d actorMinimize
               criticMinimize g ag data epochs batchSize in
  (n = 0%nat \/ epochs = 0%nat -> run = Some (Returned, ag, g', [])) /\
  ((0 < n)%nat -> (0 < epochs)%nat ->
   (tensor1d batchIndices = Threw -> run = Some (Threw, ag, g', first)) /\
   (tensor1d batchIndices = Returned ->
    fst (actorMinimize ag batch) = Threw ->
    run = Some (Threw, snd (actorMinimize ag batch), g', first)) /\
   (tensor1d batchIndices = Returned ->
    fst (actorMinimize ag batch) = Returned ->
    fst (criticMinimize (snd (actorMinimize ag batch)) batch) = Threw ->
    run = Some (Threw,
                snd (criticMinimize (snd (actorMinimize ag batch)) batch),
                g', first))).
Proof.
  intros n indices g' batchIndices batch first run.
  subst run. unfold ppo_update. fold n.
  subst indices g' first batch batchIndices.
  destruct (createShuffledIndices g n) as [idx g1]. cbn [fst snd].
  split.
  - intros [Hn|He].
    + rewrite Hn, epoch_loop_empty. reflexivity.
    + rewrite He. reflexivity.
  - intros Hn He.
    destruct epochs as [|ep]; [lia|]. destruct n as [|n']; [lia|].
    cbn [epoch_loop batch_loop Nat.leb Nat.add app].
    split; [|split].
    + intros ->. reflexivity.
    + intros -> Ea. destruct (actorMinimize ag _) as [ca ag1].
      cbn [fst snd] in *. subst ca. reflexivity.
    + intros -> Ea Ec. destruct (actorMinimize ag _) as [ca ag1].
      cbn [fst snd] in *. subst ca.
      destruct (criticMinimize ag1 _) as [cc ag2].
      cbn [fst snd] in *. subst cc. reflexivity.
Qed.

(** X11.  With [batchSize = 0], a dataset that is not empty and at least
    one epoch, the promise of [update] is never fulfilled: [i +=
    batchSize] leaves the offset at 0, so the run ends only by a call
    that throws, and is then rejected; if no call throws it does not
    end, however many turns it is given. *)
Theorem update_with_batchSize_0_never_returns (g : Gen) (ag : PPOAgent)
    (data : Dataset) (epochs : nat) :
  (0 < length (d_observations data))%nat -> (0 < epochs)%nat ->
  let run := ppo_update Gen createShuffledIndices tensor1d actorMinimize
               criticMinimize g ag data epochs 0 in
  (forall c ag' g' log, run = Some (c, ag', g', log) -> c = Threw) /\
  ((forall values, tensor1d values = Returned) ->
   (forall a batch, fst (actorMinimize a batch) = Returned) ->
   (forall a batch, fst (criticMinimize a batch) = Returned) ->
   run = None).
Proof.
  intros Hn He run. subst run. unfold ppo_update.
  destruct (createShuffledIndices g (length (d_observations data)))
    as [idx g1].
  destruct epochs as [|ep]; [lia|]. cbn [epoch_loop]. split.
  - intros c ag' g' log.
    destruct (batch_loop _ _ _ _ _ _ _ _ _ _ _ _) as [[[c1 ag1] log1]|] eqn:E;
      [|discriminate].
    apply batch_loop_never_returns in E; [|exact Hn]. subst c1.
    intros [= <- _ _ _]. reflexivity.
  - intros Ht Ha Hc. now rewrite batch_loop_stuck.
Qed.

End UpdateFailure.

Lemma update_rejects_at_the_first_throw_witness :
  ppo_update unit reverseShuffle rejectIndices noStep noStep tt
    (agentWith 0 (-0.5)) dataset3 10 64
  = Some (Threw, agentWith 0 (-0.5), tt,
          [{| v_epoch := 0; v_offset := 0; v_indices := [2; 1; 0]%nat |}]).
Proof.
  exact (proj1 (proj2 (update_rejects_at_the_first_throw unit reverseShuffle
                  rejectIndices noStep noStep tt (agentWith 0 (-0.5))
                  dataset3 10 64) (Nat.lt_0_succ 2) (Nat.lt_0_succ 9))
           eq_refl).
Defined.

Lemma update_with_batchSize_0_never_returns_witness :
  ppo_update unit reverseShuffle rejectIndices noStep noStep tt
    (agentWith 0 (-0.5)) dataset3 10 0
  = Some (Threw, agentWith 0 (-0.5), tt,
          [{| v_epoch := 0; v_offset := 0; v_indices := []%nat |}]) /\
  ppo_update unit reverseShuffle acceptIndices noStep noStep tt
    (agentWith 0 (-0.5)) dataset3 10 0 = None.
Proof.
  split; [reflexivity|].
  apply (proj2 (update_with_batchSize_0_never_returns unit reverseShuffle
                  acceptIndices noStep noStep tt (agentWith 0 (-0.5))
                  dataset3 10 (Nat.lt_0_succ 2) (Nat.lt_0_succ 9)));
    reflexivity.
Defined.

(** ** The session between the ticks *)

Lemma update_shape (sim : VerticalChainSimulator) (force elapsedTime : R) :
  length (state (update sim force elapsedTime)) = length (state sim) /\
  numPoles (update sim force elapsedTime) = numPoles sim.
Proof.
  unfold update, update_counted.
  destruct (update_loop_spec (floor_steps (elapsedTime / (dt * 1000)))
              force sim 0) as (k & E & _).
  rewrite E. cbn [fst]. apply run_shape.
Qed.

Lemma Forall_snoc {A : Type} (P : A -> Prop) (l : list A) (x : A) :
  Forall P l -> P x -> Forall P (l ++ [x]).
Proof. intros Hl Hx. apply Forall_app. split; [exact Hl | now constructor]. Qed.

Lemma Forall_eq_repeat {A : Type} (c : A) (l : list A) :
  Forall (fun x => x = c) l -> l = repeat c (length l).
Proof.
  induction 1 as [|x l Hx _ IH]; [reflexivity|].
  simpl. now rewrite Hx, <- IH.
Qed.

Lemma initSession_invariant (cv : Canvas) (n : Z) (g : Rng) (s : Session) :
  initSession cv n g = Some s ->
  sessionInvariant s /\ s_obs_dim s = Z.to_nat (2 + 2 * n) /\
  s_buffers s = emptyBuffers.
Proof.
  unfold initSession, initSimulation.
  destruct (constructor cv n g) as [sim g'|] eqn:E; [|discriminate].
  intros H. injection H as <-.
  destruct (constructor_fields cv n g sim g' E) as (_ & Hn & _ & _ & _ & Hs).
  set (sim0 := {| canvas := cv; numPoles := n;
                  state := ta_new (Z.to_nat (2 + 2 * n));
                  trails := []; maxTrailLength := None |}) in Hs.
  pose proof (reset_fields sim0 g) as [Hl _].
  destruct (reset sim0 g) as [s1 h]. cbn [fst] in Hl.
  injection Hs as -> ->.
  assert (Hlen : length (state (initializeTrails s1)) = Z.to_nat (2 + 2 * n)).
  { cbn [initializeTrails set_trails state]. rewrite Hl. apply ta_new_length. }
  unfold sessionInvariant. cbn [s_simulator s_obs_dim s_buffers].
  rewrite Hn. split; [|split; reflexivity].
  split; [exact Hlen|]. cbn [emptyBuffers bufferObservations bufferActions
    bufferRewards bufferDones bufferLogProbs bufferValues length].
  repeat split; constructor.
Qed.

Lemma tick_invariant (ag : PPOAgent) (elapsed : R) (noise : list R)
    (s : Session) :
  sessionInvariant s -> sessionInvariant (fst (tick ag elapsed noise s)).
Proof.
  unfold sessionInvariant. cbn zeta.
  intros (Hst & Ha & Hr & Hd & Hlp & Hv & Fo & Fa & Fr & Fd).
  unfold tick.
  set (force := ta_get (action (getAction ag (state (s_simulator s)) noise)) 0).
  destruct (update_shape (s_simulator s) force elapsed) as [Hl _].
  destruct (isTerminal (update (s_simulator s) force elapsed)).
  - cbn [Z.eqb Pos.eqb].
    pose proof (reset_fields (update (s_simulator s) force elapsed) (s_rng s))
      as [Hl' _].
    destruct (reset _ _) as [sim2 g']. cbn [fst] in *.
    cbn [s_simulator s_obs_dim s_buffers emptyBuffers bufferObservations
         bufferActions bufferRewards bufferDones bufferLogProbs bufferValues
         length].
    split; [congruence|]. repeat split; constructor.
  - cbn [Z.eqb fst s_simulator s_obs_dim s_buffers pushTransition
         bufferObservations bufferActions bufferRewards bufferDones
         bufferLogProbs bufferValues].
    rewrite !length_app. cbn [length].
    split; [congruence|].
    repeat split; try lia; apply Forall_snoc; auto.
Qed.

Lemma ticks_invariant (inputs : list TickInput) :
  forall s, sessionInvariant s -> sessionInvariant (fst (ticks inputs s)).
Proof.
  induction inputs as [|i rest IH]; intros s Hs; [exact Hs|].
  cbn [ticks].
  pose proof (tick_invariant (t_agent i) (t_elapsed i) (t_noise i) s Hs) as H1.
  destruct (tick _ _ _ s) as [s1 d]. cbn [fst] in H1.
  specialize (IH s1 H1). destruct (ticks rest s1) as [s2 ds]. exact IH.
Qed.

(** X12.  From [initSimulation] on and through any run of ticks (with any
    agents, elapsed times and noise samples), between two ticks: the state
    vector has the length [obs_dim = 2 + 2 * numPoles] that the agent was
    built for, the six buffers have the same length, every stored
    observation has length [obs_dim] and every stored action one entry,
    every stored reward is 1, and no stored done flag is set. *)
Theorem session_invariant_holds (cv : Canvas) (n : Z) (g : Rng) (s : Session)
    (inputs : list TickInput) :
  initSession cv n g = Some s ->
  s_obs_dim s = Z.to_nat (2 + 2 * n) /\
  s_obs_dim (fst (ticks inputs s)) = s_obs_dim s /\
  sessionInvariant (fst (ticks inputs s)).
Proof.
  intros Hi. destruct (initSession_invariant cv n g s Hi) as (Hinv & Ho & _).
  split; [exact Ho|]. split; [|now apply ticks_invariant].
  clear. revert s. induction inputs as [|i rest IH]; intros s; [reflexivity|].
  cbn [ticks].
  assert (H1 : s_obs_dim (fst (tick (t_agent i) (t_elapsed i) (t_noise i) s))
               = s_obs_dim s).
  { unfold tick. destruct (_ =? 1)%Z; [|reflexivity].
    destruct (reset _ _); reflexivity. }
  destruct (tick _ _ _ s) as [s1 d]. cbn [fst] in H1.
  specialize (IH s1). destruct (ticks rest s1) as [s2 ds].
  cbn [fst] in *. congruence.
Qed.

Lemma session_invariant_holds_witness :
  exists s,
    initSession canvas800x600 1 rngHalf = Some s /\
    sessionInvariant
      (fst (ticks [{| t_agent := agentWith 0 (-0.5); t_elapsed := 20;
                      t_noise := [1] |}] s)).
Proof.
  destruct (initSession canvas800x600 1 rngHalf) as [s|] eqn:E.
  - exists s. split; [reflexivity|].
    exact (proj2 (proj2 (session_invariant_holds canvas800x600 1 rngHalf s
                           _ E))).
  - discriminate E.
Defined.

(** X13.  What a tick does with the buffers, on a session as above.  If
    the simulator is not terminal after the advance, the tick appends one
    transition (the state before the advance, reward 1, done 0) and calls
    no update.  If it is terminal, the tick always calls [agent.update]
    (the test for an empty buffer never fails): with the stored
    observations followed by the state before the advance, with as many
    actions and old log-probabilities, and with the advantages and returns
    of [computeGAE] on the rewards [1, ..., 1], the stored values followed
    by the new one, and the done flags [0, ..., 0, 1]; after it the
    buffers are empty and the simulator is the reset one. *)
Theorem tick_collects_or_dispatches (ag : PPOAgent) (elapsed : R)
    (noise : list R) (s : Session) :
  sessionInvariant s ->
  let st := state (s_simulator s) in
  let r := getAction ag st noise in
  let sim1 := update (s_simulator s) (ta_get (action r) 0) elapsed in
  let b := s_buffers s in
  let m := length (bufferObservations b) in
  let s' := fst (tick ag elapsed noise s) in
  (isTerminal sim1 = false ->
   snd (tick ag elapsed noise s) = None /\
   s_simulator s' = sim1 /\
   s_buffers s'
   = pushTransition b st (ta_get (action r) 0) 1 0 (logProb r) (value r)) /\
  (isTerminal sim1 = true ->
   s_buffers s' = emptyBuffers /\
   s_simulator s' = fst (reset sim1 (s_rng s)) /\
   exists data,
     snd (tick ag elapsed noise s) = Some data /\
     d_observations data = bufferObservations b ++ [st] /\
     length (d_actions data) = S m /\
     length (d_logpOld data) = S m /\
     length (d_advantages data) = S m /\
     length (d_returns data) = S m /\
     d_advantages data
     = advantages (computeGAE (repeat 1 (S m)) (bufferValues b ++ [value r])
                     (repeat 0%Z m ++ [1%Z])) /\
     d_returns data
     = returns (computeGAE (repeat 1 (S m)) (bufferValues b ++ [value r])
                  (repeat 0%Z m ++ [1%Z]))).
Proof.
  unfold sessionInvariant. cbn zeta.
  intros (Hst & Ha & Hr & Hd & Hlp & Hv & Fo & Fa & Fr & Fd).
  unfold tick.
  set (r := getAction ag (state (s_simulator s)) noise).
  set (sim1 := update (s_simulator s) (ta_get (action r) 0) elapsed).
  split; intros HT; rewrite HT.
  - cbn [Z.eqb fst snd s_simulator s_buffers]. repeat split.
  - cbn [Z.eqb Pos.eqb].
    destruct (reset sim1 (s_rng s)) as [sim2 g'].
    cbn [fst snd s_simulator s_buffers].
    split; [reflexivity|]. split; [reflexivity|].
    unfold episodeEndUpdate.
    cbn [pushTransition bufferObservations bufferActions bufferRewards
         bufferDones bufferLogProbs bufferValues].
    rewrite length_app. cbn [length].
    destruct (Nat.ltb_spec 0 (length (bufferObservations (s_buffers s)) + 1))
      as [_|]; [|lia].
    eexists. split; [reflexivity|].
    cbn [d_observations d_actions d_advantages d_returns d_logpOld].
    set (m := length (bufferObservations (s_buffers s))) in *.
    assert (Erew : bufferRewards (s_buffers s) ++ [1] = repeat 1 (S m)).
    { rewrite (Forall_eq_repeat 1 _ Fr), Hr.
      rewrite <- repeat_cons. reflexivity. }
    assert (Edone : bufferDones (s_buffers s) ++ [1%Z]
                    = repeat 0%Z m ++ [1%Z]).
    { now rewrite (Forall_eq_repeat 0%Z _ Fd), Hd. }
    rewrite Erew, Edone.
    destruct (computeGAE_advantages (repeat 1 (S m))
                (bufferValues (s_buffers s) ++ [value r])
                (repeat 0%Z m ++ [1%Z])) as [Hla _].
    destruct (computeGAE_returns (repeat 1 (S m))
                (bufferValues (s_buffers s) ++ [value r])
                (repeat 0%Z m ++ [1%Z])) as [Hlr _].
    rewrite repeat_length in Hla, Hlr.
    rewrite !length_app. cbn [length].
    repeat split; try lia; assumption.
Qed.

Lemma tick_collects_or_dispatches_witness :
  exists s,
    initSession canvas800x600 1 rngHalf = Some s /\
    (isTerminal
       (update (s_simulator s)
          (ta_get (action (getAction (agentWith 0 (-0.5))
                             (state (s_simulator s)) [1])) 0) 20) = false ->
     snd (tick (agentWith 0 (-0.5)) 20 [1] s) = None).
Proof.
  destruct (initSession canvas800x600 1 rngHalf) as [s|] eqn:E.
  - exists s. split; [reflexivity|].
    intros HT.
    exact (proj1 (proj1 (tick_collects_or_dispatches (agentWith 0 (-0.5)) 20
                           [1] s
                           (proj1 (initSession_invariant _ _ _ _ E))) HT)).
  - discriminate E.
Defined.

(** ** The log-probability of the sampled action *)

Lemma ln_sqrt_2PI : ln (sqrt (2 * PI)) = ln (2 * PI) / 2.
Proof.
  assert (H2 : 0 < 2 * PI) by (pose proof PI_RGT_0; lra).
  pose proof (sqrt_lt_R0 _ H2) as Hs.
  assert (E : ln (sqrt (2 * PI) * sqrt (2 * PI)) = ln (2 * PI)).
  { rewrite sqrt_sqrt by lra. reflexivity. }
  rewrite ln_mult in E by assumption. lra.
Qed.

Lemma ln_gaussDensity_sampled (m l n : R) :
  ln (gaussDensity m (exp l) (m + exp l * n)) = gaussLogDensity n l.
Proof.
  unfold gaussDensity, gaussLogDensity.
  pose proof (exp_pos l) as He.
  assert (H2 : 0 < 2 * PI) by (pose proof PI_RGT_0; lra).
  pose proof (sqrt_lt_R0 _ H2) as Hs.
  replace ((m + exp l * n - m) / exp l) with n by (field; lra).
  rewrite ln_mult.
  - rewrite ln_Rinv by (apply Rmult_lt_0_compat; assumption).
    rewrite ln_mult by assumption.
    rewrite !ln_exp, ln_sqrt_2PI. lra.
  - apply Rinv_0_lt_compat. apply Rmult_lt_0_compat; assumption.
  - apply exp_pos.
Qed.

(** X14.  With as many action means and log-standard-deviations as noise
    samples, [getAction] returns the action [mean + exp(logStd) * noise]
    (per dimension), the critic's value, and as [logProb] the logarithm of
    the density, at that action, of the normal distribution with that mean
    and the standard deviations [exp(logStd)]. *)
Theorem getAction_logProb_is_log_density (ag : PPOAgent) (obs noise : list R) :
  length (actor ag obs) = length noise ->
  length (actorLogStd ag) = length noise ->
  let r := getAction ag obs noise in
  length (action r) = length noise /\
  (forall d, (d < length noise)%nat ->
     nth d (action r) 0
     = nth d (actor ag obs) 0 + exp (nth d (actorLogStd ag) 0) * nth d noise 0) /\
  value r = critic ag obs /\
  logProb r = logDensityOfAction (actor ag obs) (actorLogStd ag) (action r).
Proof.
  intros Hmu Hls. cbn zeta. unfold getAction, logDensityOfAction.
  cbn [action logProb value].
  generalize dependent (actorLogStd ag). generalize dependent (actor ag obs).
  induction noise as [|n noise IH]; intros [|m mu] Hmu [|l ls] Hls;
    simpl in *; try discriminate.
  - repeat split; auto. intros; lia.
  - destruct (IH mu ltac:(lia) ls ltac:(lia)) as (Hl & Hd & _ & Hlp).
    split; [now rewrite Hl|]. split; [|split; [reflexivity|]].
    + intros [|d] Hlt; [reflexivity|]. apply Hd. lia.
    + rewrite ln_gaussDensity_sampled, Hlp. reflexivity.
Qed.

Lemma getAction_logProb_is_log_density_witness :
  logProb (getAction (agentWith 0.25 (-0.5)) [0; 0; 0; 0] [1])
  = logDensityOfAction [0.25] [-0.5]
      (action (getAction (agentWith 0.25 (-0.5)) [0; 0; 0; 0] [1])).
Proof.
  exact (proj2 (proj2 (proj2
    (getAction_logProb_is_log_density (agentWith 0.25 (-0.5)) [0; 0; 0; 0] [1]
       eq_refl eq_refl)))).
Defined.

(** ** Left-right symmetry *)

Lemma ta_get_opp (l : list R) (i : nat) :
  ta_get (map Ropp l) i = - ta_get l i.
Proof.
  unfold ta_get. revert i; induction l as [|x l IH]; intros [|i]; simpl;
    try lra. apply IH.
Qed.

Lemma ta_ext (a b : list R) :
  length a = length b ->
  (forall i, (i < length a)%nat -> ta_get a i = ta_get b i) -> a = b.
Proof.
  intros Hl H. apply (nth_ext a b 0 0 Hl). exact H.
Qed.

Lemma vectorAdd_opp (a b : list R) :
  vectorAdd (map Ropp a) (map Ropp b) = map Ropp (vectorAdd a b).
Proof.
  revert b; induction a as [|x a IH]; intros b; [reflexivity|].
  destruct b as [|y b]; simpl.
  - rewrite <- (IH []). simpl. f_equal. lra.
  - rewrite IH. f_equal. lra.
Qed.

Lemma vectorScale_opp (a : list R) (c : R) :
  vectorScale (map Ropp a) c = map Ropp (vectorScale a c).
Proof.
  unfold vectorScale. rewrite !map_map. apply map_ext. intros; lra.
Qed.

Lemma computeDerivatives_mirror (sim sim' : VerticalChainSimulator)
    (st : list R) (force : R) :
  numPoles sim' = numPoles sim ->
  length st = (2 + 2 * poleCount sim)%nat ->
  computeDerivatives sim' (map Ropp st) (- force)
  = map Ropp (computeDerivatives sim st force).
Proof.
  intros HN Hlen.
  assert (HP : poleCount sim' = poleCount sim)
    by (unfold poleCount; now rewrite HN).
  destruct (computeDerivatives_entries sim st force)
    as (Dl & D0 & D1 & Dp & _); [lia|].
  destruct (computeDerivatives_entries sim' (map Ropp st) (- force))
    as (Ml & M0 & M1 & Mp & _); [rewrite length_map, HP; lia|].
  rewrite HP, HN in *. rewrite length_map in Ml.
  apply ta_ext; [rewrite length_map; congruence|].
  intros j Hj. rewrite ta_get_opp. rewrite Ml, Hlen in Hj.
  destruct (Nat.lt_ge_cases j 2) as [Hlt|Hge].
  - destruct j as [|[|j]]; [| |lia].
    + rewrite M0, D0, ta_get_opp. reflexivity.
    + rewrite M1, D1. unfold Rdiv. lra.
  - destruct (Nat.Even_or_Odd (j - 2)) as [[m Hm]|[m Hm]].
    + replace j with (2 + 2 * m)%nat by lia.
      destruct (Mp m) as [E _]; [lia|]. destruct (Dp m) as [F _]; [lia|].
      rewrite E, F, ta_get_opp. reflexivity.
    + replace j with (3 + 2 * m)%nat by lia.
      destruct (Mp m) as [_ E]; [lia|]. destruct (Dp m) as [_ F]; [lia|].
      rewrite E, F, ta_get_opp, sin_neg, cos_neg. unfold Rdiv. lra.
Qed.

Lemma rk4Step_mirror (sim : VerticalChainSimulator) (force : R) :
  length (state sim) = (2 + 2 * poleCount sim)%nat ->
  rk4Step (mirror sim) (- force) = mirror (rk4Step sim force).
Proof.
  intros Hlen.
  assert (HD : forall st, length st = length (state sim) ->
            computeDerivatives (mirror sim) (map Ropp st) (- force)
            = map Ropp (computeDerivatives sim st force)).
  { intros st Hst. apply computeDerivatives_mirror; [reflexivity|].
    now rewrite Hst. }
  unfold rk4Step.
  change (state (mirror sim)) with (map Ropp (state sim)).
  set (s := state sim) in *.
  unfold vectorAddMultiple. cbn [fold_left].
  set (k1 := computeDerivatives sim s force).
  set (k2 := computeDerivatives sim (vectorAdd s (vectorScale k1 (dt / 2)))
               force).
  set (k3 := computeDerivatives sim (vectorAdd s (vectorScale k2 (dt / 2)))
               force).
  set (k4 := computeDerivatives sim (vectorAdd s (vectorScale k3 dt)) force).
  assert (E1 : computeDerivatives (mirror sim) (map Ropp s) (- force)
               = map Ropp k1) by (apply HD; reflexivity).
  rewrite E1. repeat (rewrite vectorScale_opp || rewrite vectorAdd_opp).
  assert (E2 : computeDerivatives (mirror sim)
                 (map Ropp (vectorAdd s (vectorScale k1 (dt / 2)))) (- force)
               = map Ropp k2) by (apply HD; apply vectorAdd_length).
  rewrite E2. repeat (rewrite vectorScale_opp || rewrite vectorAdd_opp).
  assert (E3 : computeDerivatives (mirror sim)
                 (map Ropp (vectorAdd s (vectorScale k2 (dt / 2)))) (- force)
               = map Ropp k3) by (apply HD; apply vectorAdd_length).
  rewrite E3. repeat (rewrite vectorScale_opp || rewrite vectorAdd_opp).
  assert (E4 : computeDerivatives (mirror sim)
                 (map Ropp (vectorAdd s (vectorScale k3 dt))) (- force)
               = map Ropp k4) by (apply HD; apply vectorAdd_length).
  rewrite E4. repeat (rewrite vectorScale_opp || rewrite vectorAdd_opp).
  reflexivity.
Qed.

Lemma partialCosSum_opp (st : list R) (n : nat) :
  partialCosSum (map Ropp st) n = partialCosSum st n.
Proof.
  induction n as [|n IH]; simpl; [reflexivity|].
  rewrite IH. f_equal. rewrite <- cos_neg. f_equal.
  change (nth (S (S (n + (n + 0)))) (map Ropp st) 0)
    with (ta_get (map Ropp st) (S (S (n + (n + 0))))).
  rewrite ta_get_opp. unfold ta_get. lra.
Qed.

Lemma isTerminal_mirror_any (sim sim' : VerticalChainSimulator) :
  numPoles sim' = numPoles sim ->
  state sim' = map Ropp (state sim) ->
  isTerminal sim' = isTerminal sim.
Proof.
  intros HN Hs. apply eq_true_iff_eq.
  rewrite !isTerminal_iff, !tip_check_cosines.
  assert (HP : poleCount sim' = poleCount sim)
    by (unfold poleCount; now rewrite HN).
  rewrite HP, Hs, ta_get_opp, Rabs_Ropp.
  split; (intros [H|(i & Hi & Hc)]; [left; exact H|right]);
    exists i; (split; [exact Hi|]).
  - now rewrite <- partialCosSum_opp.
  - now rewrite partialCosSum_opp.
Qed.

(** The loop of [update] on the mirrored simulator with the opposite
    force: the same number of steps, and a state that is the mirror of
    the state of the original run. *)
Lemma update_loop_mirror (budget : nat) (force : R) :
  forall sim sim' done,
    numPoles sim' = numPoles sim ->
    state sim' = map Ropp (state sim) ->
    length (state sim) = (2 + 2 * poleCount sim)%nat ->
    snd (update_loop budget (- force) sim' done)
    = snd (update_loop budget force sim done) /\
    state (fst (update_loop budget (- force) sim' done))
    = map Ropp (state (fst (update_loop budget force sim done))) /\
    numPoles (fst (update_loop budget (- force) sim' done))
    = numPoles (fst (update_loop budget force sim done)).
Proof.
  induction budget as [|b IH]; intros sim sim' done HN Hs Hlen.
  - simpl. repeat split; assumption.
  - cbn [update_loop].
    assert (Hs1 : state (updateTrails (rk4Step sim' (- force)))
                  = map Ropp (state (updateTrails (rk4Step sim force)))).
    { rewrite !updateTrails_state.
      pose proof (rk4Step_mirror sim force Hlen) as E.
      apply (f_equal state) in E. unfold mirror at 2 in E.
      cbn [state set_state] in E. rewrite <- E.
      unfold rk4Step, mirror. cbn [state set_state].
      rewrite Hs.
      assert (HD : forall st,
                computeDerivatives sim' st (- force)
                = computeDerivatives (set_state sim (map Ropp (state sim)))
                    st (- force)).
      { intros st. unfold computeDerivatives, poleCount.
        cbn [numPoles set_state]. now rewrite HN. }
      now rewrite !HD. }
    assert (HN1 : numPoles (updateTrails (rk4Step sim' (- force)))
                  = numPoles (updateTrails (rk4Step sim force)))
      by exact HN.
    assert (Hlen1 : length (state (updateTrails (rk4Step sim force)))
                    = (2 + 2 * poleCount (updateTrails (rk4Step sim force)))%nat).
    { rewrite updateTrails_state, (proj1 (rk4Step_shape sim force)).
      exact Hlen. }
    rewrite (isTerminal_mirror_any _ _ HN1 Hs1).
    destruct (isTerminal (updateTrails (rk4Step sim force))).
    + cbn [fst snd]. repeat split; assumption.
    + apply IH; assumption.
Qed.

(** X15.  The simulation is symmetric left to right.  On a state vector
    of length [2 + 2N], negating every entry of the state and the force
    negates the derivatives and the state after an RK4 step, leaves
    [isTerminal] as it is, and makes [update] perform the same number of
    steps and end in the negated state. *)
Theorem simulation_is_mirror_symmetric (sim : VerticalChainSimulator)
    (force elapsedTime : R) :
  length (state sim) = (2 + 2 * poleCount sim)%nat ->
  computeDerivatives (mirror sim) (state (mirror sim)) (- force)
  = map Ropp (computeDerivatives sim (state sim) force) /\
  state (rk4Step (mirror sim) (- force))
  = map Ropp (state (rk4Step sim force)) /\
  isTerminal (mirror sim) = isTerminal sim /\
  stepsPerformed (mirror sim) (- force) elapsedTime
  = stepsPerformed sim force elapsedTime /\
  state (update (mirror sim) (- force) elapsedTime)
  = map Ropp (state (update sim force elapsedTime)).
Proof.
  intros Hlen. split; [|split; [|split]].
  - apply computeDerivatives_mirror; [reflexivity | exact Hlen].
  - rewrite (rk4Step_mirror sim force Hlen). reflexivity.
  - apply isTerminal_mirror_any; reflexivity.
  - unfold stepsPerformed, update, update_counted.
    destruct (update_loop_mirror
                (floor_steps (elapsedTime / (dt * 1000))) force
                sim (mirror sim) 0 eq_refl eq_refl Hlen) as (Hk & Hst & _).
    split; assumption.
Qed.

Lemma simulation_is_mirror_symmetric_witness :
  isTerminal (mirror (simWith 1 [1; 0; 0.5; 0]))
  = isTerminal (simWith 1 [1; 0; 0.5; 0]).
Proof.
  exact (proj1 (proj2 (proj2
    (simulation_is_mirror_symmetric (simWith 1 [1; 0; 0.5; 0]) 1 20
       eq_refl)))).
Defined.

(** ** The discounted returns of the demo (src/script.js) *)

Lemma js_assign_nil (i : nat) (v : R) :
  Script.js_assign [] i v = repeat None i ++ [Some v].
Proof. induction i as [|i IH]; simpl; [reflexivity|]. now rewrite IH. Qed.

Lemma js_assign_hole (i : nat) (v : R) (l : list (option R)) :
  Script.js_assign (repeat None (S i) ++ l) i v
  = repeat None i ++ Some v :: l.
Proof. induction i as [|i IH]; simpl; [reflexivity|]. now rewrite <- IH. Qed.

Lemma discountedSum_S (rw : list R) (i m : nat) :
  Script.discountedSum rw i (S m)
  = nth i rw 0 + 0.99 * Script.discountedSum rw (S i) m.
Proof.
  unfold Script.discountedSum. cbn [seq map].
  rewrite <- seq_shift, map_map, <- sumR_scale, map_map.
  change (sumR (?a :: ?l)) with (a + sumR l).
  rewrite Nat.add_0_r. cbn [pow]. f_equal; [lra|].
  f_equal. apply map_ext. intros j. cbn [pow].
  replace (i + S j)%nat with (S i + j)%nat by lia. lra.
Qed.

(** The loop of the discounted returns with [k] indices left: the array
    is empty before the first assignment, and after it it has [k] holes
    followed by the discounted sums from [k] on. *)
Lemma returns_loop_inv (rw : list R) (k : nat) :
  (k <= length rw)%nat ->
  forall sum arr,
    sum = Script.discountedSum rw k (length rw - k) ->
    arr = (if (k =? length rw)%nat then []
           else repeat None k
                ++ map (fun i => Some (Script.discountedSum rw i (length rw - i)))
                     (seq k (length rw - k))) ->
    Script.returns_loop rw k sum arr
    = map (fun i => Some (Script.discountedSum rw i (length rw - i)))
        (seq 0 (length rw)).
Proof.
  induction k as [|k IH]; intros Hk sum arr Hsum Harr.
  - cbn [Script.returns_loop]. rewrite Harr.
    destruct (Nat.eqb_spec 0 (length rw)) as [E|E].
    + now rewrite <- E.
    + now rewrite Nat.sub_0_r.
  - cbn [Script.returns_loop]. apply IH; [lia| |].
    + replace (length rw - k)%nat with (S (length rw - S k)) by lia.
      rewrite discountedSum_S, Hsum. reflexivity.
    + destruct (Nat.eqb_spec k (length rw)) as [E|_]; [lia|].
      assert (Ev : nth k rw 0 + 0.99 * sum
                   = Script.discountedSum rw k (length rw - k)).
      { replace (length rw - k)%nat with (S (length rw - S k)) by lia.
        rewrite discountedSum_S, Hsum. reflexivity. }
      rewrite Ev.
      replace (seq k (length rw - k))
        with (k :: seq (S k) (length rw - S k))
        by (replace (length rw - k)%nat with (S (length rw - S k)) by lia;
            reflexivity).
      cbn [map]. rewrite Harr.
      destruct (Nat.eqb_spec (S k) (length rw)) as [E|E].
      * rewrite js_assign_nil. replace (length rw - S k)%nat with 0%nat by lia.
        reflexivity.
      * apply js_assign_hole.
Qed.

Lemma discountedSum_bounds (rw : list R) :
  Forall (fun r => 0 <= r <= 1) rw ->
  forall m i, 0 <= Script.discountedSum rw i m <= (1 - 0.99 ^ m) * 100.
Proof.
  intros Hrw. induction m as [|m IH]; intros i.
  - unfold Script.discountedSum. simpl. lra.
  - rewrite discountedSum_S. specialize (IH (S i)).
    assert (Hr : 0 <= nth i rw 0 <= 1).
    { destruct (Nat.lt_ge_cases i (length rw)) as [Hlt|Hge].
      - rewrite Forall_forall in Hrw. apply Hrw. now apply nth_In.
      - rewrite nth_overflow by exact Hge. lra. }
    cbn [pow]. lra.
Qed.

(** X16.  The array of discounted returns that [trainActorCriticModel]
    builds has one entry per reward and no hole; entry [i] is the sum
    over the later steps of [0.99^j * rewards[i + j]], so the last one is
    the last reward and each one is its reward plus 0.99 times the next;
    and for rewards between 0 and 1, as [step] pushes them, every entry
    lies between 0 and [(1 - 0.99^(n - i)) * 100], below 100. *)
Theorem discountedReturns_are_discounted_sums (rw : list R) :
  let n := length rw in
  let ret i := Script.discountedSum rw i (n - i) in
  Script.discountedReturns rw = map (fun i => Some (ret i)) (seq 0 n) /\
  length (Script.discountedReturns rw) = n /\
  (forall i, (i < n)%nat ->
     nth i (Script.discountedReturns rw) None = Some (ret i) /\
     ret i = nth i rw 0 + 0.99 * ret (S i)) /\
  ret n = 0 /\
  (Forall (fun r => 0 <= r <= 1) rw ->
   forall i, (i < n)%nat ->
     0 <= ret i <= (1 - 0.99 ^ (n - i)) * 100 /\ ret i < 100).
Proof.
  cbn zeta.
  assert (E : Script.discountedReturns rw
              = map (fun i => Some (Script.discountedSum rw i (length rw - i)))
                  (seq 0 (length rw))).
  { unfold Script.discountedReturns. apply returns_loop_inv.
    - lia.
    - now rewrite Nat.sub_diag.
    - now rewrite Nat.eqb_refl. }
  split; [exact E|]. split; [now rewrite E, length_map, length_seq|].
  split; [|split].
  - intros i Hi. split.
    + rewrite E.
      rewrite (nth_indep _ None
                 (Some (Script.discountedSum rw 0 (length rw - 0))))
        by (now rewrite length_map, length_seq).
      rewrite (map_nth (fun i => Some (Script.discountedSum rw i (length rw - i)))).
      now rewrite seq_nth.
    + replace (length rw - i)%nat with (S (length rw - S i)) by lia.
      apply discountedSum_S.
  - now rewrite Nat.sub_diag.
  - intros Hrw i Hi.
    pose proof (discountedSum_bounds rw Hrw (length rw - i) i) as Hb.
    split; [exact Hb|].
    assert (0 < 0.99 ^ (length rw - i)) by (apply pow_lt; lra).
    lra.
Qed.

Lemma discountedReturns_are_discounted_sums_witness :
  0 <= Script.discountedSum [1; 0; 1] 0 (length [1; 0; 1] - 0)
  <= (1 - 0.99 ^ (length [1; 0; 1] - 0)) * 100.
Proof.
  refine (proj1 (proj2 (proj2 (proj2 (proj2
    (discountedReturns_are_discounted_sums [1; 0; 1]))))
    _ 0%nat _)).
  - repeat constructor; lra.
  - simpl. lia.
Defined.

(** The array itself, on the rewards of a three-step episode. *)
Example discountedReturns_three_steps :
  Script.discountedReturns [1; 0; 1]
  = [Some (1 + 0.99 * (0 + 0.99 * (1 + 0.99 * 0)));
     Some (0 + 0.99 * (1 + 0.99 * 0));
     Some (1 + 0.99 * 0)].
Proof. reflexivity. Qed.

(** ** The page of the demo between two events (src/script.js) *)

Lemma sumR_app (a b : list R) : sumR (a ++ b) = sumR a + sumR b.
Proof. induction a as [|x a IH]; simpl; [lra|]. rewrite IH. lra. Qed.

Lemma small_angle_no_failure (a : R) :
  0 <= a <= 1 -> Rgtb (Rabs a) (PI / 2) = false.
Proof.
  intros Ha. apply Rgtb_false. rewrite Rabs_pos_eq by lra.
  pose proof PI2_1. lra.
Qed.

Lemma resetSimulation_not_failed (w : Script.World) :
  0 <= Script.canvasWidth w ->
  Script.checkFailure (Script.resetSimulation w) = false.
Proof.
  intros Hw. unfold Script.checkFailure, Script.resetSimulation.
  cbn [Script.x Script.theta Script.theta1 Script.theta2
       Script.simulationType Script.canvasWidth].
  assert (Hx : Rgtb (Rabs (0 * Script.scaleFactor))
                 (Script.canvasWidth w / 2) = false).
  { apply Rgtb_false. rewrite Rmult_0_l, Rabs_R0. lra. }
  rewrite Hx.
  destruct (Script.simulationType w); [| |reflexivity].
  - rewrite small_angle_no_failure by lra. reflexivity.
  - rewrite !small_angle_no_failure by lra. reflexivity.
Qed.

Lemma epsilon_decay_closed (k : nat) :
  Rmax Script.minEpsilon
    (Rmax Script.minEpsilon (Script.epsilonDecay ^ k) * Script.epsilonDecay)
  = Rmax Script.minEpsilon (Script.epsilonDecay ^ S k).
Proof.
  unfold Script.minEpsilon, Script.epsilonDecay. cbn [pow].
  assert (Hp : 0 < 0.995 ^ k) by (apply pow_lt; lra).
  set (p := 0.995 ^ k) in *.
  destruct (Rle_lt_dec 0.1 p) as [H|H].
  - rewrite (Rmax_right 0.1 p) by exact H. f_equal. lra.
  - rewrite (Rmax_left 0.1 p) by lra.
    rewrite !Rmax_left by lra. reflexivity.
Qed.

Lemma epsilon_closed_bounds (k : nat) :
  Script.minEpsilon
  <= Rmax Script.minEpsilon (Script.epsilonDecay ^ k) <= 1.
Proof.
  split; [apply Rmax_l|]. apply Rmax_lub.
  - unfold Script.minEpsilon. lra.
  - unfold Script.epsilonDecay.
    rewrite <- (pow1 k). apply pow_incr. lra.
Qed.

Lemma rewardIf_01 (c : bool) : Script.rewardIf c = 0 \/ Script.rewardIf c = 1.
Proof. destruct c; [right|left]; reflexivity. Qed.

Lemma record_episodeInvariant (w : Script.World) (st : list R) (a : Z)
    (c : bool) :
  Script.episodeInvariant w ->
  Script.episodeInvariant (Script.record w st a (Script.rewardIf c)).
Proof.
  unfold Script.episodeInvariant, Script.record.
  cbn [Script.states Script.actions Script.rewards Script.episodeReward
       Script.epsilon].
  intros (Ha & Hr & Fa & Fr & Hsum & He).
  rewrite !length_app, sumR_app. cbn [length sumR fold_right].
  repeat split; try lia; try (apply He).
  - apply Forall_snoc; [exact Fa|]. destruct (a =? -1)%Z; auto.
  - apply Forall_snoc; [exact Fr|]. apply rewardIf_01.
  - rewrite Hsum. lra.
Qed.

Lemma step_pageInvariant (w : Script.World) (a : Z) :
  Script.pageInvariant w -> Script.pageInvariant (fst (Script.step w a)).
Proof.
  intros Hinv. unfold Script.step.
  destruct (Script.simRunning w); [|exact Hinv].
  destruct Hinv as (Hep & Ht & Hw & Heps & Hf).
  set (dt := Script.baseTau * Script.simulationSpeed w).
  set (w1 := match Script.simulationType w with
             | Script.OnePole => _ | Script.TwoPole => _
             | Script.OtherType => w end).
  assert (H1 : Script.episodeInvariant w1 /\
               Script.simulationType w1 = Script.simulationType w /\
               Script.canvasWidth w1 = Script.canvasWidth w /\
               Script.epsilon w1 = Script.epsilon w /\
               Script.episodeCount w1 = Script.episodeCount w).
  { subst w1. destruct (Script.simulationType w) eqn:Et.
    - split; [apply record_episodeInvariant; exact Hep|].
      repeat split; try reflexivity; exact Et.
    - split; [apply record_episodeInvariant; exact Hep|].
      repeat split; try reflexivity; exact Et.
    - congruence. }
  clearbody w1. destruct H1 as (Hep1 & Ht1 & Hw1 & He1 & Hc1).
  destruct (Script.checkFailure w1) eqn:Ef; cbn [fst].
  - unfold Script.pageInvariant, Script.episodeInvariant, Script.endEpisode.
    cbn [Script.states Script.actions Script.rewards Script.episodeReward
         Script.epsilon Script.episodeCount Script.simulationType
         Script.canvasWidth].
    assert (Ee : Rmax Script.minEpsilon (Script.epsilon w1 * Script.epsilonDecay)
                 = Rmax Script.minEpsilon
                     (Script.epsilonDecay ^ S (Script.episodeCount w1))).
    { rewrite He1, Heps, Hc1. apply epsilon_decay_closed. }
    rewrite Ee.
    split; [|split; [|split; [|split]]].
    + cbn [length sumR fold_right].
      split; [reflexivity|]. split; [reflexivity|].
      split; [apply Forall_nil|]. split; [apply Forall_nil|].
      split; [reflexivity|]. apply epsilon_closed_bounds.
    + change (Script.simulationType (Script.resetSimulation w1))
        with (Script.simulationType w1). congruence.
    + change (Script.canvasWidth (Script.resetSimulation w1))
        with (Script.canvasWidth w1). lra.
    + reflexivity.
    + pose proof (resetSimulation_not_failed w1 ltac:(lra)) as Hr.
      exact Hr.
  - unfold Script.pageInvariant.
    rewrite Ht1, Hw1, He1, Hc1. repeat split; try assumption; apply Hep1.
Qed.

Lemma handle_pageInvariant (w : Script.World) (e : Script.Event) :
  e <> Script.SetPoleConfig Script.OtherType ->
  Script.pageInvariant w -> Script.pageInvariant (Script.handle w e).
Proof.
  intros He Hinv. destruct e as [a| | |v|v|v|t]; cbn [Script.handle].
  - now apply step_pageInvariant.
  - exact Hinv.
  - destruct Hinv as (Hep & Ht & Hw & Heps & Hf).
    split; [exact Hep|]. split; [exact Ht|]. split; [exact Hw|].
    split; [exact Heps|]. now apply resetSimulation_not_failed.
  - exact Hinv.
  - exact Hinv.
  - exact Hinv.
  - destruct Hinv as (Hep & Ht & Hw & Heps & Hf).
    unfold Script.pageInvariant, Script.episodeInvariant,
      Script.changePoleConfig.
    cbn [Script.states Script.actions Script.rewards Script.episodeReward
         Script.epsilon Script.episodeCount Script.simulationType
         Script.canvasWidth].
    split; [|split; [|split; [|split]]].
    + cbn [length sumR fold_right].
      split; [reflexivity|]. split; [reflexivity|].
      split; [apply Forall_nil|]. split; [apply Forall_nil|].
      split; [reflexivity|]. apply Hep.
    + cbn [Script.resetSimulation Script.withSettings Script.simulationType].
      congruence.
    + exact Hw.
    + exact Heps.
    + exact (resetSimulation_not_failed
               (Script.withSettings w t (Script.gravity w) (Script.forceMag w)
                  (Script.simulationSpeed w) (Script.simRunning w)) Hw).
Qed.

Lemma initialWorld_pageInvariant (width : R) :
  0 <= width -> Script.pageInvariant (Script.initialWorld width).
Proof.
  intros Hw. unfold Script.pageInvariant. split; [|split; [|split; [|split]]].
  - unfold Script.episodeInvariant, Script.initialWorld.
    cbn [Script.resetSimulation Script.states Script.actions Script.rewards
         Script.episodeReward Script.epsilon length sumR fold_right].
    unfold Script.minEpsilon.
    split; [reflexivity|]. split; [reflexivity|].
    split; [apply Forall_nil|]. split; [apply Forall_nil|].
    split; [reflexivity|]. lra.
  - discriminate.
  - exact Hw.
  - cbn [Script.initialWorld Script.resetSimulation Script.epsilon
         Script.episodeCount pow].
    unfold Script.minEpsilon. rewrite Rmax_right by lra. lra.
  - apply resetSimulation_not_failed. exact Hw.
Qed.

(** X17.  On a canvas of non-negative width, from the loaded page on and
    through any run of animation frames (with any actions) and uses of the
    controls (pause, reset, the three sliders, the selector with one of
    its two pole configurations), between two events: [states], [actions]
    and [rewards] have the same length; every stored action is 0 or 1 and
    every stored reward is 0 or 1; [episodeReward] is the sum of the
    stored rewards; [epsilon] is [max(0.1, 0.995^episodeCount)], so it
    stays between 0.1 and 1; and [checkFailure()] is false. *)
Theorem page_invariant_holds (width : R) (events : list Script.Event) :
  0 <= width ->
  Forall (fun e => e <> Script.SetPoleConfig Script.OtherType) events ->
  Script.pageInvariant (Script.handleAll events (Script.initialWorld width)).
Proof.
  intros Hw Hev. unfold Script.handleAll.
  pose proof (initialWorld_pageInvariant width Hw) as Hinv.
  generalize dependent (Script.initialWorld width).
  induction Hev as [|e events He _ IH]; intros w Hinv; [exact Hinv|].
  cbn [fold_left]. apply IH. now apply handle_pageInvariant.
Qed.

Lemma page_invariant_holds_witness :
  Script.pageInvariant
    (Script.handleAll
       [Script.Frame 1; Script.SetGravity 5; Script.Frame (-1);
        Script.SetPoleConfig Script.TwoPole; Script.Frame 1]
       (Script.initialWorld 800)).
Proof.
  refine (page_invariant_holds 800 _ _ _); [lra|].
  repeat constructor; discriminate.
Defined.

(** ** The simulation steps of the demo (src/script.js) *)

Lemma cos_sqr_le_1 (t : R) : 0 <= cos t * cos t <= 1.
Proof.
  pose proof (COS_bound t) as [Hl Hu]. split; nra.
Qed.

Lemma singleDenominator_even (t : R) :
  Script.singleDenominator (- t) = Script.singleDenominator t.
Proof. unfold Script.singleDenominator. now rewrite cos_neg. Qed.

Lemma doubleDenominator_even (t : R) :
  Script.doubleDenominator (- t) = Script.doubleDenominator t.
Proof. unfold Script.doubleDenominator. now rewrite cos_neg. Qed.

(** X18.  The two steps of the demo never divide by zero and are
    symmetric left to right.  The denominator of the angular acceleration
    is at least [0.5 * (4/3 - 1/11)] in [simulateSingleStep] and at least
    [0.5 * (4/3 - 1/6)] in [simulateDoubleStep], for every angle; and
    negating the positions, the angles, their velocities and the action
    negates them again after the step, for every setting of gravity, force
    and time step. *)
Theorem demo_steps_are_regular_and_symmetric (w : Script.World) (action : Z)
    (dt : R) :
  (forall t, Script.poleLength * (4 / 3 - 1 / 11) <= Script.singleDenominator t) /\
  (forall t, Script.poleLength * (4 / 3 - 1 / 6) <= Script.doubleDenominator t) /\
  Script.simulateSingleStep (Script.mirrorWorld w) (- action) dt
  = Script.mirrorWorld (Script.simulateSingleStep w action dt) /\
  Script.simulateDoubleStep (Script.mirrorWorld w) (- action) dt
  = Script.mirrorWorld (Script.simulateDoubleStep w action dt) /\
  Script.checkFailure (Script.mirrorWorld w) = Script.checkFailure w.
Proof.
  split; [|split; [|split; [|split]]].
  - intros t. unfold Script.singleDenominator, Script.totalMassSingle,
      Script.poleLength, Script.massPole, Script.massCart.
    pose proof (cos_sqr_le_1 t) as Hc. rewrite !Rmult_assoc.
    set (cc := cos t * cos t) in *. lra.
  - intros t. unfold Script.doubleDenominator, Script.poleLength,
      Script.massPole, Script.massCart.
    pose proof (cos_sqr_le_1 t) as Hc. rewrite !Rmult_assoc.
    set (cc := cos t * cos t) in *. lra.
  - unfold Script.simulateSingleStep, Script.mirrorWorld.
    cbn [Script.simulationType Script.gravity Script.forceMag
         Script.simulationSpeed Script.canvasWidth Script.x Script.x_dot
         Script.theta Script.theta_dot Script.theta1 Script.theta1_dot
         Script.theta2 Script.theta2_dot Script.states Script.actions
         Script.rewards Script.episodeReward Script.episodeCount
         Script.epsilon Script.simRunning].
    rewrite opp_IZR, sin_neg, cos_neg, singleDenominator_even.
    set (D := Script.singleDenominator _). set (M := Script.totalMassSingle).
    set (s := sin _). set (c := cos _).
    f_equal; unfold Rdiv; ring.
  - unfold Script.simulateDoubleStep, Script.mirrorWorld.
    cbn [Script.simulationType Script.gravity Script.forceMag
         Script.simulationSpeed Script.canvasWidth Script.x Script.x_dot
         Script.theta Script.theta_dot Script.theta1 Script.theta1_dot
         Script.theta2 Script.theta2_dot Script.states Script.actions
         Script.rewards Script.episodeReward Script.episodeCount
         Script.epsilon Script.simRunning].
    rewrite opp_IZR, !sin_neg, cos_neg, doubleDenominator_even.
    set (D := Script.doubleDenominator _).
    set (M := Script.massCart + 2 * Script.massPole).
    set (s := sin (Script.theta1 w)). set (c := cos _).
    set (s2 := sin (Script.theta2 w)).
    f_equal; unfold Rdiv; try ring; lra.
  - unfold Script.checkFailure, Script.mirrorWorld.
    cbn [Script.simulationType Script.canvasWidth Script.x Script.theta
         Script.theta1 Script.theta2].
    replace (- Script.x w * Script.scaleFactor)
      with (- (Script.x w * Script.scaleFactor)) by lra.
    replace (- Script.theta1 w + - Script.theta2 w)
      with (- (Script.theta1 w + Script.theta2 w)) by lra.
    now rewrite !Rabs_Ropp.
Qed.
